(** * DNS-Scanner: the scan-and-probe pipeline of [server/routes.ts]

    A shallow embedding of the registry scan route ([POST /api/scan-domains]),
    of the website prober [checkWebsiteStatus], of the test route
    ([POST /api/check-domain]), of the in-memory store [MemStorage] and of
    the filter of the client page, followed by the properties of the
    specification that concern them and by further properties of the code.

    Modelling conventions.
    - JavaScript strings are [string]s of 8-bit code units (the characters
      of Latin-1, so that the non-breaking space that [&nbsp;] stands for
      is the character 160); the string primitives ([toLowerCase], [trim],
      [\s], [\d]) are those of ECMAScript on these characters.
    - A JavaScript number that holds a count is a natural number together
      with the one non-finite value [parseInt] can yield ([number]); the
      rounding of integers above 2^53 to a double is written out.
    - An [async] function or a block that may throw computes a
      [completion]: a returned value or a thrown one.
    - The network, the HTML parser and the clock are outside the program;
      they enter as [Section] variables (what a request answers, the DOM
      that cheerio selects from, the identifiers and dates the store draws). *)

From Stdlib Require Import Bool Arith NArith List Ascii String Lia.
From Stdlib Require Import DecimalString DecimalN.
From Stdlib Require Import ZArith Permutation Sorted.
Import ListNotations.

Local Open Scope list_scope.
Local Open Scope string_scope.

(* ------------------------------------------------------------------ *)
(** ** Completions: values returned or thrown *)

(** A thrown JavaScript value, as far as the handlers of the program look
    at it: whether it is an [Error] instance and its [message] property
    ([None] when the property is undefined). *)
Record thrown : Type := mkThrown {
  instanceofError : bool;
  message : option string
}.

Inductive completion (A : Type) : Type :=
| Return (a : A)
| Throw (e : thrown).

Arguments Return {A} a.
Arguments Throw {A} e.

Definition bind {A B : Type} (m : completion A) (k : A -> completion B)
  : completion B :=
  match m with
  | Return a => k a
  | Throw e => Throw e
  end.

(** [try { m } catch (error) { handler error }] *)
Definition try_catch {A : Type} (m : completion A)
  (handler : thrown -> completion A) : completion A :=
  match m with
  | Return a => Return a
  | Throw e => handler e
  end.

Notation "x <- m ;; k" := (bind m (fun x => k))
  (at level 61, m at next level, right associativity).

(** [new Error(msg)] and its subclasses ([TypeError], [AxiosError]). *)
Definition Error (msg : string) : thrown :=
  {| instanceofError := true; message := Some msg |}.

(* ------------------------------------------------------------------ *)
(** ** String primitives *)

Module Js.

Definition code (c : ascii) : N := N_of_ascii c.

Definition between (lo hi : N) (c : ascii) : bool :=
  ((lo <=? code c) && (code c <=? hi))%N.

Definition is_upper : ascii -> bool := between 65 90.
Definition is_lower : ascii -> bool := between 97 122.
Definition is_letter (c : ascii) : bool := is_upper c || is_lower c.
(** [\d] *)
Definition is_digit : ascii -> bool := between 48 57.
(** [\s], and the characters [trim] removes: TAB, LF, VT, FF, CR, SP and
    the non-breaking space. *)
Definition is_space (c : ascii) : bool :=
  between 9 13 c || (code c =? 32)%N || (code c =? 160)%N.

(** The capital letters with a diacritic, 192 to 222 without the
    multiplication sign 215. *)
Definition is_upper_latin1 (c : ascii) : bool :=
  between 192 214 c || between 216 222 c.

Definition lower_char (c : ascii) : ascii :=
  if is_upper c || is_upper_latin1 c then ascii_of_N (code c + 32) else c.

(** [s.toLowerCase()] *)
Fixpoint toLowerCase (s : string) : string :=
  match s with
  | EmptyString => EmptyString
  | String c s' => String (lower_char c) (toLowerCase s')
  end.

(** [s.startsWith(t)] *)
Fixpoint startsWith (s t : string) {struct t} : bool :=
  match t, s with
  | EmptyString, _ => true
  | String _ _, EmptyString => false
  | String c t', String d s' => Ascii.eqb c d && startsWith s' t'
  end.

(** [s.includes(t)] *)
Fixpoint includes (s t : string) : bool :=
  startsWith s t ||
  match s with
  | EmptyString => false
  | String _ s' => includes s' t
  end.

(** [s.substring(n)] *)
Fixpoint substring_from (n : nat) (s : string) : string :=
  match n, s with
  | O, _ => s
  | S _, EmptyString => EmptyString
  | S n', String _ s' => substring_from n' s'
  end.

Fixpoint trimStart (s : string) : string :=
  match s with
  | EmptyString => EmptyString
  | String c s' => if is_space c then trimStart s' else s
  end.

Fixpoint trimEnd (s : string) : string :=
  match s with
  | EmptyString => EmptyString
  | String c s' =>
      match trimEnd s' with
      | EmptyString => if is_space c then EmptyString else String c EmptyString
      | t => String c t
      end
  end.

(** [s.trim()] *)
Definition trim (s : string) : string := trimEnd (trimStart s).

(** The string is truthy: [if (s)], [s || other]. *)
Definition truthy (s : string) : bool :=
  match s with
  | EmptyString => false
  | String _ _ => true
  end.

(** [a || b] on strings *)
Definition or_else (a b : string) : string := if truthy a then a else b.

(** [`${n}`] for a non-negative integer [n]. *)
Definition decimal (n : N) : string := NilEmpty.string_of_uint (N.to_uint n).

(** The concatenation of the texts of a cheerio selection. *)
Definition concat_text (l : list string) : string :=
  fold_right String.append EmptyString l.

End Js.

(* ------------------------------------------------------------------ *)
(** ** The website prober: [checkWebsiteStatus] *)

(** [response.data]: axios hands the body over as a string unless it
    parses as JSON, in which case it is the parsed value. Of a value that
    is not a string the prober only observes its truthiness. *)
Inductive body : Type :=
| Text (s : string)
| Falsy
| Truthy.

Record http_response : Type := mkResponse {
  response_status : N;
  (** [response.request?.res?.responseUrl] *)
  responseUrl : option string;
  response_data : body
}.

(** What the network does with one GET: no HTTP response at all (DNS
    failure, refused connection, timeout, too many redirects), or a
    response. *)
Inductive exchange : Type :=
| NoResponse (e : thrown)
| Responded (r : http_response).

Inductive check_status : Type := st_working | st_broken.

(** [{status: 'working' | 'broken', error?: string}] *)
Record WebsiteCheck : Type := mkCheck {
  check : check_status;
  error : option string
}.

(** The argument [domain] at run time. The type annotation [string] is
    erased: [/api/check-domain] passes [req.body.domain] as it came. A
    value that is not a string is seen through its conversion by the
    template literal, which throws for an object without a primitive
    value. *)
Inductive js_value : Type :=
| JString (s : string)
| JOther (toString : completion string).

Definition ToString (v : js_value) : completion string :=
  match v with
  | JString s => Return s
  | JOther c => c
  end.

Definition blocked_message : string :=
  "Blocked by security filter (Securly/similar)".

Section Prober.

(** The network: the exchange for a URL under a timeout in milliseconds. *)
Variable network : string -> N -> exchange.

(** [validateStatus: (status) => status < 500] *)
Definition validateStatus (status : N) : bool := (status <? 500)%N.

(** [axios.get(url, {timeout, validateStatus, ...})]: rejects when there
    is no response and when [validateStatus] refuses the status. *)
Definition axios_get (url : string) (timeout : N) : completion http_response :=
  match network url timeout with
  | NoResponse e => Throw e
  | Responded r =>
      if validateStatus (response_status r) then Return r
      else Throw (Error ("Request failed with status code "
                         ++ Js.decimal (response_status r)))
  end.

(** [response.request?.res?.responseUrl || url] *)
Definition finalUrl (response : http_response) (url : string) : string :=
  match responseUrl response with
  | Some u => Js.or_else u url
  | None => url
  end.

(** [(response.data || '').toLowerCase()]: a [TypeError] when the data is
    a truthy value without the method. *)
Definition responseText (response : http_response) : completion string :=
  match response_data response with
  | Text s => Return (Js.toLowerCase (Js.or_else s ""))
  | Falsy => Return (Js.toLowerCase "")
  | Truthy => Throw (Error "response.data.toLowerCase is not a function")
  end.

(** The condition of the blocking-service [if], disjunct by disjunct. *)
Definition blocking_detected (finalUrlLower responseText : string) : bool :=
  Js.includes finalUrlLower "securly" ||
  Js.includes finalUrlLower "blocked" ||
  Js.includes finalUrlLower "filter" ||
  Js.includes finalUrlLower "websense" ||
  Js.includes finalUrlLower "lightspeed" ||
  Js.includes finalUrlLower "barracuda" ||
  Js.includes responseText "securly" ||
  Js.includes responseText "this site has been blocked" ||
  Js.includes responseText "access denied" ||
  Js.includes responseText "content filtered" ||
  Js.includes responseText "blocked by" ||
  Js.includes responseText "website blocked" ||
  Js.includes responseText "content filter" ||
  Js.includes responseText "websense" ||
  Js.includes responseText "lightspeed" ||
  Js.includes responseText "barracuda".

(** The statements of the inner [try] after the request has resolved. *)
Definition classify (url : string) (response : http_response)
  : completion WebsiteCheck :=
  let finalUrl := finalUrl response url in
  responseText <- responseText response ;;
  let finalUrlLower := Js.toLowerCase finalUrl in
  if blocking_detected finalUrlLower responseText then
    Return {| check := st_broken; error := Some blocked_message |}
  else if ((400 <=? response_status response)
           && (response_status response <? 500))%N then
    Return {| check := st_broken;
              error := Some ("HTTP " ++ Js.decimal (response_status response)) |}
  else
    Return {| check := st_working; error := None |}.

(** The body of the inner [try] for one URL. *)
Definition attempt (timeoutSeconds : N) (url : string)
  : completion WebsiteCheck :=
  response <- axios_get url (timeoutSeconds * 1000) ;;
  classify url response.

(** [for (const url of urls) { try { ... return ... } catch { continue } }]
    followed by the statement after the loop. Next to the completion, the
    URLs for which [axios.get] was called, in order. *)
Fixpoint try_urls (timeoutSeconds : N) (urls : list string)
  : list string * completion WebsiteCheck :=
  match urls with
  | [] => ([], Return {| check := st_broken; error := Some "Connection failed" |})
  | url :: rest =>
      match attempt timeoutSeconds url with
      | Return result => ([url], Return result)
      | Throw _ =>
          let (requested, result) := try_urls timeoutSeconds rest in
          (url :: requested, result)
      end
  end.

(** [error.message || 'Unknown error'] *)
Definition message_or (e : thrown) (default : string) : string :=
  match message e with
  | Some m => Js.or_else m default
  | None => default
  end.

(** The outer [catch] clause. *)
Definition top_level_catch (e : thrown) : completion WebsiteCheck :=
  Return {| check := st_broken;
            error := Some (message_or e "Unknown error") |}.

(** One call of [checkWebsiteStatus]: the URLs it requests and how it
    completes. *)
Definition probe (domain : js_value) (timeoutSeconds : N)
  : list string * completion WebsiteCheck :=
  match ToString domain with
  | Throw e => ([], top_level_catch e)
  | Return d =>
      let urls := ["http://" ++ d; "https://" ++ d] in
      let (requested, result) := try_urls timeoutSeconds urls in
      (requested, try_catch result top_level_catch)
  end.

Definition checkWebsiteStatus (domain : js_value) (timeoutSeconds : N)
  : completion WebsiteCheck :=
  snd (probe domain timeoutSeconds).

(** The requests one call makes. *)
Definition requests (domain : js_value) (timeoutSeconds : N) : list string :=
  fst (probe domain timeoutSeconds).

End Prober.

(* ------------------------------------------------------------------ *)
(** ** Numbers *)

(** The values [parseInt] yields. Every JavaScript number is a double:
    an integer below 2^53 is held exactly, a larger one is rounded to 53
    significant bits (ties to even) and becomes [Infinity] from 2^1024. *)
Inductive number : Type :=
| Finite (n : N)
| Infinity
| NaN.

Definition to_double (n : N) : number :=
  if (n <? 2 ^ 53)%N then Finite n
  else
    let e := (N.log2 n - 52)%N in
    let q := (n / 2 ^ e)%N in
    let r := (n mod 2 ^ e)%N in
    let half := (2 ^ (e - 1))%N in
    let q' := if (half <? r)%N || ((r =? half)%N && N.odd q)
              then (q + 1)%N else q in
    if (2 ^ 1024 <=? q' * 2 ^ e)%N then Infinity else Finite (q' * 2 ^ e)%N.

(** [span p s]: the longest prefix of [s] whose characters satisfy [p],
    and the rest. *)
Fixpoint span (p : ascii -> bool) (s : string) : string * string :=
  match s with
  | EmptyString => (EmptyString, EmptyString)
  | String c s' =>
      if p c then let (a, b) := span p s' in (String c a, b)
      else (EmptyString, s)
  end.

Fixpoint digits_value (acc : N) (digits : string) : N :=
  match digits with
  | EmptyString => acc
  | String c s' => digits_value (10 * acc + (Js.code c - 48))%N s'
  end.

(** [parseInt(s)] for a string that starts with neither white space, a
    sign nor a radix prefix (the program passes a capture of [\d+]): the
    value of the leading decimal digits, [NaN] without one. *)
Definition parseInt (s : string) : number :=
  let (digits, _) := span Js.is_digit s in
  if Js.truthy digits then to_double (digits_value 0 digits) else NaN.

(* ------------------------------------------------------------------ *)
(** ** Regular expressions of the program *)

(** [/\((\d+)\s+hosts in use\)/] anchored at the start of [s]: the
    capture. The greedy runs never need backtracking, a digit being no
    white space and white space no [h]. *)
Definition hosts_in_use_here (s : string) : option string :=
  match s with
  | EmptyString => None
  | String c s1 =>
      if Ascii.eqb c "("%char then
        let (digits, s2) := span Js.is_digit s1 in
        let (spaces, s3) := span Js.is_space s2 in
        if Js.truthy digits && Js.truthy spaces
           && Js.startsWith s3 "hosts in use)"
        then Some digits else None
      else None
  end.

(** [hostText.match(/\((\d+)\s+hosts in use\)/)]: group 1 of the
    leftmost match, [None] for [null]. *)
Fixpoint hostMatch (hostText : string) : option string :=
  match hosts_in_use_here hostText with
  | Some digits => Some digits
  | None =>
      match hostText with
      | EmptyString => None
      | String _ s' => hostMatch s'
      end
  end.

(** [[a-zA-Z0-9.-]] *)
Definition host_char (c : ascii) : bool :=
  Js.is_letter c || Js.is_digit c
  || Ascii.eqb c "."%char || Ascii.eqb c "-"%char.

(** [[a-zA-Z]{2,}$] *)
Definition tld (s : string) : bool :=
  (2 <=? String.length s)%nat
  && forallb Js.is_letter (list_ascii_of_string s).

(** [[a-zA-Z0-9.-]*\.[a-zA-Z]{2,}$], every dot tried as the last one. *)
Fixpoint hostname_rest (s : string) : bool :=
  match s with
  | EmptyString => false
  | String c s' =>
      (Ascii.eqb c "."%char && tld s') || (host_char c && hostname_rest s')
  end.

(** [/^[a-zA-Z0-9.-]+\.[a-zA-Z]{2,}$/.test(s)] *)
Definition hostname_test (s : string) : bool :=
  match s with
  | EmptyString => false
  | String c s' => host_char c && hostname_rest s'
  end.

(* ------------------------------------------------------------------ *)
(** ** Domain entries and the registry table *)

Inductive website_status : Type :=
| unchecked | checking | working | broken.

Definition of_check (s : check_status) : website_status :=
  match s with
  | st_working => working
  | st_broken => broken
  end.

Record DomainEntry : Type := mkEntry {
  domain : string;
  status : string;
  owner : string;
  age : string;
  hosts : number;
  websiteStatus : website_status;
  websiteError : option string
}.

(** A [td] of the registry table as cheerio shows it: its text, the text
    of each [a] inside it and the text of each [span] inside it, in
    document order. *)
Record cell : Type := mkCell {
  cell_text : string;
  cell_links : list string;
  cell_spans : list string
}.

(** [$(row).find('td')] *)
Definition row : Type := list cell.

(** A page after [cheerio.load]: the rows selected by [tr.trl, tr.trd]
    and the texts of the elements selected by [a[href]]. *)
Record document : Type := mkDocument {
  table_rows : list row;
  anchors : list string
}.

(** [cells.eq(i)]: the empty selection when [i] is out of range. *)
Definition eq_ (cells : row) (i : nat) : cell :=
  nth i cells {| cell_text := ""; cell_links := []; cell_spans := [] |}.

(** [.first().text()] *)
Definition first_text (texts : list string) : string :=
  match texts with
  | [] => ""
  | t :: _ => t
  end.

(** The host count of the first cell. *)
Definition hostCount_of (domainCell : cell) : number :=
  let hostSpan := cell_spans domainCell in
  if (0 <? List.length hostSpan)%nat then
    let hostText := Js.concat_text hostSpan in
    match hostMatch hostText with
    | Some digits => parseInt digits
    | None => Finite 0
    end
  else Finite 0.

(** The entry that the callback of [$('tr.trl, tr.trd').each] builds for
    one row, [None] when a guard refuses the row. *)
Definition row_entry (cells : row) : option DomainEntry :=
  if (4 <=? List.length cells)%nat then
    let domainCell := eq_ cells 0 in
    let domainName := Js.trim (first_text (cell_links domainCell)) in
    let hostCount := hostCount_of domainCell in
    let status := Js.trim (cell_text (eq_ cells 1)) in
    let ownerCell := eq_ cells 2 in
    let owner := Js.or_else (Js.trim (Js.concat_text (cell_links ownerCell)))
                            (Js.trim (cell_text ownerCell)) in
    let age := Js.trim (cell_text (eq_ cells 3)) in
    if Js.truthy domainName && Js.truthy status then
      Some {| domain := domainName; status := status; owner := owner;
              age := age; hosts := hostCount;
              websiteStatus := unchecked; websiteError := None |}
    else None
  else None.

(** [allDomainEntries.some(existing => existing.domain === domainName)] *)
Definition some_domain (allDomainEntries : list DomainEntry)
  (domainName : string) : bool :=
  existsb (fun existing => String.eqb (domain existing) domainName)
          allDomainEntries.

(** One call of the [each] callback on the pair
    [(pageEntries, allDomainEntries)]. *)
Definition each_row (acc : list DomainEntry * list DomainEntry) (cells : row)
  : list DomainEntry * list DomainEntry :=
  let (pageEntries, allDomainEntries) := acc in
  match row_entry cells with
  | Some entry =>
      if negb (some_domain allDomainEntries (domain entry)) then
        ((pageEntries ++ [entry])%list, (allDomainEntries ++ [entry])%list)
      else acc
  | None => acc
  end.

(** The [each] loop over the rows of one page. *)
Definition extract_page (rows : list row) (allDomainEntries : list DomainEntry)
  : list DomainEntry * list DomainEntry :=
  fold_left each_row rows ([], allDomainEntries).

(* ------------------------------------------------------------------ *)
(** ** The fallback extraction from link texts *)

(** The test of the [$('a[href]').each] callback on the trimmed text. *)
Definition link_candidate (linkText : string) : bool :=
  Js.truthy linkText
  && Js.includes linkText "."
  && negb (Js.includes linkText " ")
  && hostname_test linkText.

(** [Array.from(new Set(domains))]: first occurrences, in order. *)
Definition Set_from (domains : list string) : list string :=
  fold_left
    (fun seen d => if existsb (String.eqb d) seen then seen
                   else (seen ++ [d])%list)
    domains [].

(** The callback of [.filter]. The assignment to its parameter changes
    what the last test reads, not the element that is kept. *)
Definition keep_domain (domain : string) : bool :=
  if negb (Js.truthy domain) || (String.length domain =? 0)%nat then false
  else if Js.includes domain "freedns" || Js.includes domain "afraid" then false
  else
    let domain := if Js.startsWith domain "www." then Js.substring_from 4 domain
                  else domain in
    hostname_test domain.

Definition uniqueDomains (doc : document) : list string :=
  let domains := filter link_candidate (map Js.trim (anchors doc)) in
  filter keep_domain (Set_from domains).

Definition fallback_entry (domain : string) : DomainEntry :=
  {| domain := domain; status := "unknown"; owner := "unknown";
     age := "unknown"; hosts := Finite 0;
     websiteStatus := unchecked; websiteError := None |}.

(* ------------------------------------------------------------------ *)
(** ** Storage *)

Inductive scan_status : Type := completed | failed.

Record InsertDomainScan : Type := mkInsert {
  insert_domains : list DomainEntry;
  insert_status : option scan_status
}.

Record DomainScan : Type := mkScan {
  id : string;
  domains : list DomainEntry;
  scanStatus : scan_status;
  scannedAt : N
}.

(** The part of [IStorage] that the scan route uses. A store is a value
    of [S]; a call returns its completion and the store it leaves. *)
Class IStorage (S : Type) : Type := {
  createDomainScan : InsertDomainScan -> S -> completion DomainScan * S
}.

(** [MemStorage]: the [Map] of scans in insertion order, and how many
    identifiers and dates have been drawn. *)
Record MemStorage : Type := mkMem {
  domainScans : list (string * DomainScan);
  drawn : nat
}.

(** [map.set(key, value)]: the value of an existing key is replaced in
    place, a new key is appended. *)
Fixpoint Map_set (m : list (string * DomainScan)) (key : string)
  (value : DomainScan) : list (string * DomainScan) :=
  match m with
  | [] => [(key, value)]
  | (k, v) :: m' =>
      if String.eqb k key then (key, value) :: m'
      else (k, v) :: Map_set m' key value
  end.

Section MemStorage.

(** [randomUUID()] and [new Date()] at the n-th creation. *)
Variable randomUUID : nat -> string.
Variable Date_now : nat -> N.

Definition Mem_createDomainScan (insertScan : InsertDomainScan)
  (this : MemStorage) : completion DomainScan * MemStorage :=
  let id := randomUUID (drawn this) in
  let scan := {| id := id;
                 domains := insert_domains insertScan;
                 scanStatus := match insert_status insertScan with
                               | Some s => s
                               | None => completed
                               end;
                 scannedAt := Date_now (drawn this) |} in
  (Return scan,
   {| domainScans := Map_set (domainScans this) id scan;
      drawn := S (drawn this) |}).

Definition MemStorage_IStorage : IStorage MemStorage :=
  {| createDomainScan := Mem_createDomainScan |}.

End MemStorage.

(* ------------------------------------------------------------------ *)
(** ** The scan route: [POST /api/scan-domains] *)

(** What the handler sends: [res.json({success: true, scan, message})] or
    [res.status(500).json({success: false, error, message})]. *)
Inductive scan_response : Type :=
| Success (scan : DomainScan) (msg : string)
| Failure500 (err : option string) (msg : string).

Definition baseUrl : string := "https://freedns.afraid.org/domain/registry/".

(** [Promise.all]: the values when every promise fulfils, the first
    rejection otherwise. *)
Fixpoint Promise_all {A : Type} (ps : list (completion A))
  : completion (list A) :=
  match ps with
  | [] => Return []
  | p :: ps' =>
      x <- p ;;
      xs <- Promise_all ps' ;;
      Return (x :: xs)
  end.

Definition set_websiteStatus (entry : DomainEntry) (s : website_status)
  : DomainEntry :=
  {| domain := domain entry; status := status entry; owner := owner entry;
     age := age entry; hosts := hosts entry;
     websiteStatus := s; websiteError := websiteError entry |}.

Definition set_websiteError (entry : DomainEntry) (e : string) : DomainEntry :=
  {| domain := domain entry; status := status entry; owner := owner entry;
     age := age entry; hosts := hosts entry;
     websiteStatus := websiteStatus entry; websiteError := Some e |}.

(** [page === 1 ? baseUrl : `${baseUrl}?page=${page}`] *)
Definition targetUrl (page : N) : string :=
  if (page =? 1)%N then baseUrl else baseUrl ++ "?page=" ++ Js.decimal page.

Section Route.

Context {S : Type} `{IStorage S}.

(** The probed web: see [checkWebsiteStatus]. *)
Variable network : string -> N -> exchange.

(** The registry: the n-th request of the scan to a URL is rejected or
    answers markup, seen after [cheerio.load]. *)
Variable registry : nat -> string -> completion document.

(** [insertDomainScanSchema.parse], declared in [@shared/schema]. *)
Variable insertDomainScanSchema_parse
  : InsertDomainScan -> completion InsertDomainScan.

(** The callback of [allDomainEntries.map]: the entry as the callback
    leaves it. Each callback writes its own entry only, so the entries
    after [Promise.all] do not depend on the order in which the probes
    settle. *)
Definition check_entry (timeout : N) (entry : DomainEntry)
  : completion DomainEntry :=
  try_catch
    (let entry := set_websiteStatus entry checking in
     websiteCheck <- checkWebsiteStatus network (JString (domain entry)) timeout ;;
     let entry := set_websiteStatus entry (of_check (check websiteCheck)) in
     let entry := match error websiteCheck with
                  | Some e => if Js.truthy e then set_websiteError entry e
                              else entry
                  | None => entry
                  end in
     Return entry)
    (fun _ =>
       Return (set_websiteError (set_websiteStatus entry broken) "Check failed")).

(** [for (let page = 1; page <= pages; page++)], with [fuel] iterations
    left. *)
Fixpoint scan_pages (fuel : nat) (page : N)
  (allDomainEntries : list DomainEntry) : completion (list DomainEntry) :=
  match fuel with
  | O => Return allDomainEntries
  | Datatypes.S fuel' =>
      let targetUrl := targetUrl page in
      doc <- registry (N.to_nat page - 1) targetUrl ;;
      let (pageEntries, allDomainEntries) :=
        extract_page (table_rows doc) allDomainEntries in
      scan_pages fuel' (page + 1)%N allDomainEntries
  end.

Definition count_status (s : website_status) (l : list DomainEntry) : nat :=
  List.length
    (filter (fun e => match websiteStatus e, s with
                      | working, working | broken, broken
                      | checking, checking | unchecked, unchecked => true
                      | _, _ => false
                      end) l).

(** The statements of the outer [try] up to the validation of the scan
    data: the entries that are about to be stored. *)
Definition collect (timeout pages : N) : completion (list DomainEntry) :=
  allDomainEntries <- scan_pages (N.to_nat pages) 1 [] ;;
  allDomainEntries <- Promise_all (map (check_entry timeout) allDomainEntries) ;;
  if (List.length allDomainEntries =? 0)%nat then
    doc <- registry (N.to_nat pages) baseUrl ;;
    Return (allDomainEntries ++ map fallback_entry (uniqueDomains doc))%list
  else Return allDomainEntries.

(** The outer [try] block from the loop over the pages on, for a request
    whose [timeout] and [pages] are natural numbers (the destructuring of
    the body and the first log line come before and are not part of
    it). *)
Definition scan_try (timeout pages : N) (store : S)
  : completion scan_response * S :=
  match collect timeout pages with
  | Throw e => (Throw e, store)
  | Return allDomainEntries =>
      let scanData := {| insert_domains := allDomainEntries;
                         insert_status := Some completed |} in
      match insertDomainScanSchema_parse scanData with
      | Throw e => (Throw e, store)
      | Return validatedData =>
          match createDomainScan validatedData store with
          | (Throw e, store') => (Throw e, store')
          | (Return savedScan, store') =>
              let workingCount := count_status working allDomainEntries in
              let brokenCount := count_status broken allDomainEntries in
              let msg :=
                "Successfully extracted "
                ++ Js.decimal (N.of_nat (List.length allDomainEntries))
                ++ " domains from " ++ Js.decimal pages
                ++ " page(s) of FreeDNS registry. Website checks: "
                ++ Js.decimal (N.of_nat workingCount) ++ " working, "
                ++ Js.decimal (N.of_nat brokenCount) ++ " broken." in
              (Return (Success savedScan msg), store')
          end
      end
  end.

(** The handler: the outer [try] and its [catch]. *)
Definition scan_domains (timeout pages : N) (store : S)
  : scan_response * S :=
  match scan_try timeout pages store with
  | (Return response, store') => (response, store')
  | (Throw e, store') =>
      let failedScanData := {| insert_domains := [];
                               insert_status := Some failed |} in
      let store'' := snd (createDomainScan failedScanData store') in
      (Failure500
         (if instanceofError e then message e
          else Some "Unknown error occurred")
         "Failed to scan FreeDNS registry",
       store'')
  end.

End Route.

(* ------------------------------------------------------------------ *)
(** ** Vocabulary of the specification *)

(** [t] is a substring of [s]. *)
Definition occurs_in (t s : string) : Prop :=
  exists pre post, s = pre ++ t ++ post.

(** The signatures looked for in the effective URL and in the body. *)
Definition url_signatures : list string :=
  ["securly"; "blocked"; "filter"; "websense"; "lightspeed"; "barracuda"].

Definition body_signatures : list string :=
  ["securly"; "this site has been blocked"; "access denied";
   "content filtered"; "blocked by"; "website blocked"; "content filter";
   "websense"; "lightspeed"; "barracuda"].

Definition has_signature (finalUrlLower responseText : string) : Prop :=
  (exists sig, In sig url_signatures /\ occurs_in sig finalUrlLower) \/
  (exists sig, In sig body_signatures /\ occurs_in sig responseText).

Definition blocked_result : WebsiteCheck :=
  {| check := st_broken; error := Some blocked_message |}.

Definition connection_failed : WebsiteCheck :=
  {| check := st_broken; error := Some "Connection failed" |}.

Definition client_error (status : N) : Prop := (400 <= status < 500)%N.

(** The loop of a probe of the domain [d] calls [axios.get] on [url]. *)
Definition attempted (network : string -> N -> exchange) (timeout : N)
  (d url : string) : Prop :=
  In url (requests network (JString d) timeout).

Definition http_error (status : N) : WebsiteCheck :=
  {| check := st_broken; error := Some ("HTTP " ++ Js.decimal status) |}.

Definition working_result : WebsiteCheck :=
  {| check := st_working; error := None |}.

(** *** Sample exchanges *)

Definition page (status : N) (text : string) : exchange :=
  Responded {| response_status := status; responseUrl := None;
               response_data := Text text |}.

(** Every request is answered [status] with the body [text]. *)
Definition always (status : N) (text : string) : string -> N -> exchange :=
  fun _ _ => page status text.

(** No request gets a response. *)
Definition unreachable : string -> N -> exchange :=
  fun _ _ => NoResponse (Error "connect ETIMEDOUT").

(** Plain HTTP gets no response, HTTPS answers. *)
Definition https_only (status : N) (text : string) : string -> N -> exchange :=
  fun url _ => if Js.startsWith url "https://" then page status text
               else NoResponse (Error "connect ECONNREFUSED").

(** *** Rows *)

(** A well-formed row: at least 4 cells, a domain name and a status that
    are not empty. *)
Definition well_formed (cells : row) : bool :=
  (4 <=? List.length cells)%nat
  && Js.truthy (Js.trim (first_text (cell_links (eq_ cells 0))))
  && Js.truthy (Js.trim (cell_text (eq_ cells 1))).

(** The entries of the rows that pass the guards, in row order, before
    any of them is compared with the collection. *)
Definition row_entries (rows : list row) : list DomainEntry :=
  flat_map (fun cells => match row_entry cells with
                         | Some entry => [entry]
                         | None => []
                         end) rows.

Definition text_cell (text : string) : cell :=
  {| cell_text := text; cell_links := []; cell_spans := [] |}.

(** A registry row as FreeDNS prints it: the domain as a link followed
    by a span with the host count, the status, the owner as a link, the
    age. *)
Definition registry_row (name hostsText status owner age : string) : row :=
  [ {| cell_text := name ++ " " ++ hostsText; cell_links := [name];
       cell_spans := [hostsText] |};
    text_cell status;
    {| cell_text := owner; cell_links := [owner]; cell_spans := [] |};
    text_cell age ].

Definition row_example_org : row :=
  registry_row "example.org" "(12 hosts in use)" "public" "alice" "3 years".

Definition row_mooo_com : row :=
  registry_row "mooo.com" "(4093 hosts in use)" "public" "josh" "7301 days ago".

(** *** The host count pattern *)

(** Every character of [s] satisfies [p]. *)
Fixpoint every (p : ascii -> bool) (s : string) : Prop :=
  match s with
  | EmptyString => True
  | String c s' => p c = true /\ every p s'
  end.

(** [s] starts with a match of "(<digits> hosts in use)": an opening
    parenthesis, one or more digits, one or more white space characters,
    the words and the closing parenthesis. *)
Definition hosts_pattern_at (s digits : string) : Prop :=
  exists spaces rest,
    s = "(" ++ digits ++ spaces ++ "hosts in use)" ++ rest
    /\ digits <> "" /\ every Js.is_digit digits
    /\ spaces <> "" /\ every Js.is_space spaces.

(** The capture of the leftmost match of the pattern in a text, [None]
    when the pattern matches nowhere. *)
Inductive leftmost_match : string -> option string -> Prop :=
| match_here (s digits : string) :
    hosts_pattern_at s digits -> leftmost_match s (Some digits)
| match_later (c : ascii) (s : string) (m : option string) :
    (forall digits, ~ hosts_pattern_at (String c s) digits) ->
    leftmost_match s m -> leftmost_match (String c s) m
| match_nowhere : leftmost_match "" None.

(** The integer that a string of decimal digits writes. *)
Definition decimal_value (digits : string) : N := digits_value 0 digits.

(** The text that the pattern is matched against: the texts of all the
    spans of the first cell, one after the other. *)
Definition hostText_of (cells : row) : string :=
  Js.concat_text (cell_spans (eq_ cells 0)).

(** *** Sample registries and stores *)

(** A page without registry rows whose links are [texts]. *)
Definition links_only (texts : list string) : document :=
  {| table_rows := []; anchors := texts |}.

(** Every request answers the same page. *)
Definition same_page (doc : document) : nat -> string -> completion document :=
  fun _ _ => Return doc.

(** The request for [?page=2] fails, the others answer [doc]. *)
Definition page_2_fails (doc : document) : nat -> string -> completion document :=
  fun _ url => if String.eqb url (targetUrl 2)
               then Throw (Error "socket hang up")
               else Return doc.

Definition no_validation : InsertDomainScan -> completion InsertDomainScan :=
  fun scanData => Return scanData.

Definition sample_uuid (n : nat) : string := "scan-" ++ Js.decimal (N.of_nat n).
Definition sample_clock (n : nat) : N := 1700000000000 + N.of_nat n.

Definition sample_storage : IStorage MemStorage :=
  MemStorage_IStorage sample_uuid sample_clock.

Definition empty_store : MemStorage := {| domainScans := []; drawn := 0 |}.

(** A store that refuses every write. *)
Definition refusing_storage : IStorage unit :=
  {| createDomainScan := fun _ store =>
       (Throw (Error "connection terminated"), store) |}.

Definition failedScanData : InsertDomainScan :=
  {| insert_domains := []; insert_status := Some failed |}.

(* ------------------------------------------------------------------ *)
(** ** The rest of [MemStorage] *)

(** A JavaScript [Map] with string keys, as the list of its entries in
    insertion order. *)
Module JsMap.

Section Ops.

Context {V : Type}.

(** [map.set(key, value)] *)
Fixpoint set (m : list (string * V)) (key : string) (value : V)
  : list (string * V) :=
  match m with
  | [] => [(key, value)]
  | (k, v) :: m' =>
      if String.eqb k key then (key, value) :: m'
      else (k, v) :: set m' key value
  end.

(** [map.get(key)], [None] for [undefined]. *)
Fixpoint get (m : list (string * V)) (key : string) : option V :=
  match m with
  | [] => None
  | (k, v) :: m' => if String.eqb k key then Some v else get m' key
  end.

(** [Array.from(map.values())] *)
Definition values (m : list (string * V)) : list V := map snd m.

End Ops.

End JsMap.

(** [array.sort(compareFn)]. The sort is stable and [compareFn] is a
    consistent ordering wherever the program sorts, so the result is the
    one stable arrangement; insertion from the right computes it. *)
Section ArraySort.

Context {A : Type}.
Variable compareFn : A -> A -> Z.

Fixpoint sort_insert (x : A) (sorted : list A) : list A :=
  match sorted with
  | [] => [x]
  | y :: rest =>
      if (compareFn x y <=? 0)%Z then x :: sorted
      else y :: sort_insert x rest
  end.

Definition Array_sort (l : list A) : list A := fold_right sort_insert [] l.

End ArraySort.

(** [typeof users.$inferSelect] and the output of [insertUserSchema]. *)
Record InsertUser : Type := mkInsertUser {
  username : string;
  password : string
}.

Record User : Type := mkUser {
  User_id : string;
  User_username : string;
  User_password : string
}.

(** [getUser(id)] on the map [this.users]. *)
Definition Mem_getUser (users : list (string * User)) (id : string)
  : option User :=
  JsMap.get users id.

(** [getUserByUsername(username)]: the first user in insertion order
    that carries the name. *)
Definition Mem_getUserByUsername (users : list (string * User))
  (name : string) : option User :=
  find (fun user => String.eqb (User_username user) name) (JsMap.values users).

(** [createUser(insertUser)], [id] being what [randomUUID()] returned:
    the user and the map afterwards. *)
Definition Mem_createUser (id : string) (insertUser : InsertUser)
  (users : list (string * User)) : User * list (string * User) :=
  let user := {| User_id := id;
                 User_username := username insertUser;
                 User_password := password insertUser |} in
  (user, JsMap.set users id user).

(** [(a, b) => b.scannedAt.getTime() - a.scannedAt.getTime()] *)
Definition by_scannedAt_desc (a b : DomainScan) : Z :=
  (Z.of_N (scannedAt b) - Z.of_N (scannedAt a))%Z.

(** [getAllDomainScans()] *)
Definition Mem_getAllDomainScans (this : MemStorage) : list DomainScan :=
  Array_sort by_scannedAt_desc (JsMap.values (domainScans this)).

(** [getLatestDomainScan()]: element 0 of the sorted array, [None] for
    [undefined]. *)
Definition Mem_getLatestDomainScan (this : MemStorage) : option DomainScan :=
  match Array_sort by_scannedAt_desc (JsMap.values (domainScans this)) with
  | [] => None
  | scan :: _ => Some scan
  end.

(** A record as the table or the fallback produces it: not probed, no
    error. *)
Definition fresh_entry (e : DomainEntry) : Prop :=
  websiteStatus e = unchecked /\ websiteError e = None.

(** The stored record [c] is the found record [e] with the outcome of
    its own probe written on it. *)
Definition probed_from (network : string -> N -> exchange) (timeout : N)
  (e c : DomainEntry) : Prop :=
  domain c = domain e /\ status c = status e /\ owner c = owner e
  /\ age c = age e /\ hosts c = hosts e
  /\ exists w,
       checkWebsiteStatus network (JString (domain e)) timeout = Return w
       /\ websiteStatus c = of_check (check w)
       /\ websiteError c = error w.

(** The host name pattern of the fallback: one or more characters among
    letters, digits, dot and hyphen, then a dot, then two or more
    letters. *)
Definition is_hostname (s : string) : Prop :=
  exists a b, s = a ++ "." ++ b /\ a <> "" /\ every host_char a
              /\ (2 <= String.length b)%nat /\ every Js.is_letter b.

(* ------------------------------------------------------------------ *)
(** ** The test route: [POST /api/check-domain] *)

(** [req.body.domain]: absent or a falsy value that is not a string
    ([null], [false], [0]), a string, or a truthy value of another type,
    seen through its conversion to a string. *)
Inductive body_domain : Type :=
| NoDomain
| DomainString (s : string)
| DomainValue (toString : completion string).

(** [!domain] *)
Definition not_domain (domain : body_domain) : bool :=
  match domain with
  | NoDomain => true
  | DomainString s => negb (Js.truthy s)
  | DomainValue _ => false
  end.

Definition as_js_value (domain : body_domain) : js_value :=
  match domain with
  | NoDomain => JOther (Return "undefined")
  | DomainString s => JString s
  | DomainValue c => JOther c
  end.

(** What the handler sends: the result of the check, 400 or 500. *)
Inductive check_response : Type :=
| Checked (domain : body_domain) (websiteStatus : check_status)
          (websiteError : option string)
| BadRequest400 (err : string)
| CheckFailure500 (err : option string).

(** The handler. [body] is [req.body]: [None] when no body parser has
    set it, and otherwise its property [domain]. Inside the [try]: the
    destructuring of [req.body], the test of [domain], the template
    literal of the first log line, the probe, the template literal of the
    second log line, the answer. *)
Definition check_domain (network : string -> N -> exchange)
  (body : option body_domain) : check_response :=
  match
    (domain <- match body with
               | Some d => Return d
               | None => Throw (Error "Cannot destructure property 'domain' of 'req.body' as it is undefined.")
               end ;;
     if not_domain domain then Return (BadRequest400 "Domain is required")
     else
       _ <- ToString (as_js_value domain) ;;
       result <- checkWebsiteStatus network (as_js_value domain) 30 ;;
       _ <- ToString (as_js_value domain) ;;
       Return (Checked domain (check result) (error result)))
  with
  | Return response => response
  | Throw e =>
      CheckFailure500 (if instanceofError e then message e
                       else Some "Unknown error occurred")
  end.

(* ------------------------------------------------------------------ *)
(** ** The client: the filter of [filteredDomains] *)

(** The state [websiteFilter]. *)
Inductive website_filter : Type := filter_all | filter_working | filter_broken.

(** [entry.websiteStatus === websiteFilter] *)
Definition status_is (f : website_filter) (s : website_status) : bool :=
  match f, s with
  | filter_working, working => true
  | filter_broken, broken => true
  | _, _ => false
  end.

(** The callback of [domains.filter]. *)
Definition filter_match (searchTerm : string) (websiteFilter : website_filter)
  (entry : DomainEntry) : bool :=
  let searchMatch :=
    Js.includes (Js.toLowerCase (domain entry)) (Js.toLowerCase searchTerm)
    || Js.includes (Js.toLowerCase (status entry)) (Js.toLowerCase searchTerm)
    || Js.includes (Js.toLowerCase (owner entry)) (Js.toLowerCase searchTerm) in
  let websiteMatch :=
    match websiteFilter with
    | filter_all => true
    | _ => status_is websiteFilter (websiteStatus entry)
    end in
  searchMatch && websiteMatch.

(** [domains.filter(...)], before the sort. *)
Definition filtered (searchTerm : string) (websiteFilter : website_filter)
  (domains : list DomainEntry) : list DomainEntry :=
  filter (filter_match searchTerm websiteFilter) domains.

(* ================================================================== *)
(** * Properties *)

(** ** Strings *)

Lemma append_assoc (a b c : string) : (a ++ b) ++ c = a ++ (b ++ c).
Proof.
  induction a as [|x a IH]; simpl; [reflexivity|now rewrite IH].
Qed.

Lemma startsWith_iff (s t : string) :
  Js.startsWith s t = true <-> exists post, s = t ++ post.
Proof.
  revert s; induction t as [|c t IH]; intros s; simpl.
  - split; [intros _; now exists s|reflexivity].
  - destruct s as [|d s].
    + split; [discriminate|intros [post Hp]; discriminate].
    + rewrite andb_true_iff, Ascii.eqb_eq, IH. split.
      * intros [-> [post ->]]. now exists post.
      * intros [post Hp]. injection Hp as -> ->. split; [reflexivity|now exists post].
Qed.

Lemma includes_iff (s t : string) :
  Js.includes s t = true <-> occurs_in t s.
Proof.
  unfold occurs_in. induction s as [|d s IH]; simpl.
  - rewrite orb_false_r, startsWith_iff. split.
    + intros [post Hp]. now exists "", post.
    + intros [pre [post Hp]]. destruct pre; [now exists post|discriminate].
  - rewrite orb_true_iff, startsWith_iff, IH. split.
    + intros [[post Hp]|[pre [post Hp]]].
      * now exists "", post.
      * exists (String d pre), post. simpl. now rewrite Hp.
    + intros [pre [post Hp]]. destruct pre as [|x pre]; simpl in Hp.
      * left. now exists post.
      * right. injection Hp as _ Hp. now exists pre, post.
Qed.

Lemma includes_false_iff (s t : string) :
  Js.includes s t = false <-> ~ occurs_in t s.
Proof.
  rewrite <- includes_iff. destruct (Js.includes s t); split; congruence.
Qed.

(** ** The prober *)

Lemma blocking_detected_iff (u txt : string) :
  blocking_detected u txt = true <-> has_signature u txt.
Proof.
  unfold blocking_detected, has_signature, url_signatures, body_signatures.
  rewrite !orb_true_iff, !includes_iff. simpl. split.
  - intros H.
    repeat match type of H with
           | _ \/ _ => destruct H as [H|H]
           end;
      first [ left; eexists; split; [|exact H]; tauto
            | right; eexists; split; [|exact H]; tauto ].
  - intros [[sig [Hin Ho]]|[sig [Hin Ho]]];
      repeat match type of Hin with
             | _ \/ _ => destruct Hin as [Hin|Hin]
             | False => destruct Hin
             end; subst sig; tauto.
Qed.


Section ProbeLoop.

Variable network : string -> N -> exchange.
Variable timeout : N.

Lemma schemes_differ (d : string) : "http://" ++ d <> "https://" ++ d.
Proof. simpl. intros Heq. discriminate. Qed.

(** How the loop over the two schemes unfolds. *)
Lemma probe_string (d : string) :
  probe network (JString d) timeout =
  match attempt network timeout ("http://" ++ d) with
  | Return result => (["http://" ++ d], Return result)
  | Throw _ =>
      match attempt network timeout ("https://" ++ d) with
      | Return result => (["http://" ++ d; "https://" ++ d], Return result)
      | Throw _ => (["http://" ++ d; "https://" ++ d], Return connection_failed)
      end
  end.
Proof.
  unfold probe, ToString. cbn [try_urls].
  destruct (attempt network timeout ("http://" ++ d)); [reflexivity|].
  destruct (attempt network timeout ("https://" ++ d)); reflexivity.
Qed.

(** The classification of an attempt that returns is the result of the
    probe. *)
Lemma attempted_return (d url : string) (result : WebsiteCheck) :
  attempted network timeout d url ->
  attempt network timeout url = Return result ->
  checkWebsiteStatus network (JString d) timeout = Return result.
Proof.
  unfold attempted, requests, checkWebsiteStatus. rewrite probe_string.
  intros Hin Hret.
  destruct (attempt network timeout ("http://" ++ d)) as [r1|e1] eqn:E1.
  - simpl in *. destruct Hin as [<-|[]]. congruence.
  - destruct (attempt network timeout ("https://" ++ d)) as [r2|e2] eqn:E2;
      simpl in *; destruct Hin as [<-|[<-|[]]]; congruence.
Qed.

(** What an attempt does with a response that [axios.get] resolved to
    and whose body has a lower-cased text. *)
Lemma attempt_resolved (url : string) (r : http_response) (txt : string) :
  axios_get network url (timeout * 1000) = Return r ->
  responseText r = Return txt ->
  attempt network timeout url =
  Return (if blocking_detected (Js.toLowerCase (finalUrl r url)) txt
          then blocked_result
          else if ((400 <=? response_status r) && (response_status r <? 500))%N
               then http_error (response_status r)
               else working_result).
Proof.
  intros Hget Htxt. unfold attempt, classify. rewrite Hget. simpl.
  rewrite Htxt. simpl.
  destruct (blocking_detected _ _); [reflexivity|].
  destruct ((400 <=? response_status r) && (response_status r <? 500))%N;
    reflexivity.
Qed.

Lemma client_error_iff (status : N) :
  ((400 <=? status) && (status <? 500))%N = true <-> client_error status.
Proof.
  unfold client_error. rewrite andb_true_iff, N.leb_le, N.ltb_lt. tauto.
Qed.

End ProbeLoop.

(** C2, as the code has it. For a URL that a probe attempts and whose
    response is inspected (the status is below 500, so that the request
    resolves, and the body has a text), the classification goes in this
    order: a filter signature in the lower-cased effective URL or
    body gives broken, "Blocked by security filter (Securly/similar)",
    whatever the status; otherwise a status in [400, 500) gives broken,
    "HTTP <status>"; otherwise the domain is working. *)
Theorem classification_order
  (network : string -> N -> exchange) (timeout : N) (d url : string)
  (r : http_response) (txt : string) :
  attempted network timeout d url ->
  axios_get network url (timeout * 1000) = Return r ->
  responseText r = Return txt ->
  let finalUrlLower := Js.toLowerCase (finalUrl r url) in
  (has_signature finalUrlLower txt ->
   checkWebsiteStatus network (JString d) timeout = Return blocked_result) /\
  (~ has_signature finalUrlLower txt -> client_error (response_status r) ->
   checkWebsiteStatus network (JString d) timeout
   = Return (http_error (response_status r))) /\
  (~ has_signature finalUrlLower txt -> ~ client_error (response_status r) ->
   checkWebsiteStatus network (JString d) timeout = Return working_result).
Proof.
  intros Hatt Hget Htxt u.
  pose proof (attempt_resolved network timeout url r txt Hget Htxt) as Hrun.
  fold u in Hrun.
  pose proof (blocking_detected_iff u txt) as Hsig.
  pose proof (client_error_iff (response_status r)) as Hcl.
  destruct (blocking_detected u txt).
  - repeat split; intros.
    + now apply attempted_return with (url := url).
    + exfalso. tauto.
    + exfalso. tauto.
  - assert (Hno : ~ has_signature u txt) by (intros Hs; apply Hsig in Hs; discriminate).
    destruct ((400 <=? response_status r) && (response_status r <? 500))%N.
    + repeat split; intros.
      * contradiction.
      * now apply attempted_return with (url := url).
      * exfalso. tauto.
    + assert (Hnc : ~ client_error (response_status r))
        by (intros Hc; apply Hcl in Hc; discriminate).
      repeat split; intros.
      * contradiction.
      * contradiction.
      * now apply attempted_return with (url := url).
Qed.

Ltac no_signature :=
  let H := fresh in
  intros H; apply blocking_detected_iff in H; vm_compute in H; discriminate.

Lemma classification_order_witness :
  checkWebsiteStatus (https_only 200 "<h1>This site has been blocked</h1>")
    (JString "example.org") 30 = Return blocked_result
  /\ checkWebsiteStatus (always 404 "Not Found") (JString "example.org") 30
     = Return (http_error 404)
  /\ checkWebsiteStatus (always 302 "Moved") (JString "example.org") 30
     = Return working_result.
Proof.
  split; [|split].
  - refine (proj1 (classification_order
                     (https_only 200 "<h1>This site has been blocked</h1>") 30
                     "example.org" "https://example.org"
                     {| response_status := 200; responseUrl := None;
                        response_data := Text "<h1>This site has been blocked</h1>" |}
                     "<h1>this site has been blocked</h1>" _ _ _) _).
    + unfold attempted. vm_compute. right. left. reflexivity.
    + reflexivity.
    + reflexivity.
    + apply blocking_detected_iff. vm_compute. reflexivity.
  - refine (proj1 (proj2 (classification_order
                     (always 404 "Not Found") 30
                     "example.org" "http://example.org"
                     {| response_status := 404; responseUrl := None;
                        response_data := Text "Not Found" |}
                     "not found" _ _ _)) _ _).
    + unfold attempted. vm_compute. left. reflexivity.
    + reflexivity.
    + reflexivity.
    + no_signature.
    + unfold client_error. simpl. lia.
  - refine (proj2 (proj2 (classification_order
                     (always 302 "Moved") 30
                     "example.org" "http://example.org"
                     {| response_status := 302; responseUrl := None;
                        response_data := Text "Moved" |}
                     "moved" _ _ _)) _ _).
    + unfold attempted. vm_compute. left. reflexivity.
    + reflexivity.
    + reflexivity.
    + no_signature.
    + unfold client_error. simpl. lia.
Defined.

(** C2, refuted as stated: both schemes answer 503 with a body that
    carries no signature. The status is outside [400, 500), and the probe
    does not answer working: the request throws and the probe ends in
    "Connection failed". *)
Lemma server_error_not_working :
  attempted (always 503 "Service Unavailable") 30
    "example.com" "http://example.com"
  /\ always 503 "Service Unavailable" "http://example.com" (30 * 1000)%N
     = page 503 "Service Unavailable"
  /\ ~ has_signature "http://example.com" "service unavailable"
  /\ ~ client_error 503
  /\ checkWebsiteStatus (always 503 "Service Unavailable")
       (JString "example.com") 30 = Return connection_failed
  /\ connection_failed <> working_result.
Proof.
  split; [unfold attempted; vm_compute; now left|].
  split; [reflexivity|].
  split; [no_signature|].
  split; [unfold client_error; lia|].
  split; [reflexivity|discriminate].
Qed.

(** C10, as the code has it. For a URL that a probe attempts and whose
    response is inspected (the status is below 500, so that the request
    resolves, and the body has a text), the bare substring "blocked" or "filter" anywhere in the lower-cased
    effective URL makes the probe answer broken, "Blocked by security
    filter (Securly/similar)", whatever the status and the text of the
    body: the URL is searched for bare tokens, not for the phrases. *)
Theorem bare_token_in_url_blocks
  (network : string -> N -> exchange) (timeout : N) (d url : string)
  (r : http_response) (txt : string) :
  attempted network timeout d url ->
  axios_get network url (timeout * 1000) = Return r ->
  responseText r = Return txt ->
  occurs_in "blocked" (Js.toLowerCase (finalUrl r url))
  \/ occurs_in "filter" (Js.toLowerCase (finalUrl r url)) ->
  checkWebsiteStatus network (JString d) timeout = Return blocked_result.
Proof.
  intros Hatt Hget Htxt Htoken.
  apply attempted_return with (url := url); [exact Hatt|].
  rewrite (attempt_resolved network timeout url r txt Hget Htxt).
  replace (blocking_detected (Js.toLowerCase (finalUrl r url)) txt) with true;
    [reflexivity|].
  symmetry. apply blocking_detected_iff. left.
  destruct Htoken as [Hb|Hf].
  - exists "blocked". split; [simpl; tauto|exact Hb].
  - exists "filter". split; [simpl; tauto|exact Hf].
Qed.

Lemma bare_token_in_url_blocks_witness :
  checkWebsiteStatus (always 200 "<html>Free online games</html>")
    (JString "unblocked-games.com") 30 = Return blocked_result.
Proof.
  apply (bare_token_in_url_blocks
           (always 200 "<html>Free online games</html>") 30
           "unblocked-games.com" "http://unblocked-games.com"
           {| response_status := 200; responseUrl := None;
              response_data := Text "<html>Free online games</html>" |}
           "<html>free online games</html>").
  - unfold attempted. vm_compute. left. reflexivity.
  - reflexivity.
  - reflexivity.
  - left. apply includes_iff. vm_compute. reflexivity.
Defined.

(** C10, refuted as stated: the domain unblocked-games.com answers 503
    on both schemes. A response is received, its URL contains "blocked",
    and the probe ends in "Connection failed". *)
Lemma server_error_not_blocked :
  attempted (always 503 "Service Unavailable") 30
    "unblocked-games.com" "http://unblocked-games.com"
  /\ always 503 "Service Unavailable" "http://unblocked-games.com" (30 * 1000)%N
     = page 503 "Service Unavailable"
  /\ occurs_in "blocked" (Js.toLowerCase "http://unblocked-games.com")
  /\ checkWebsiteStatus (always 503 "Service Unavailable")
       (JString "unblocked-games.com") 30 = Return connection_failed
  /\ connection_failed <> blocked_result.
Proof.
  split; [unfold attempted; vm_compute; now left|].
  split; [reflexivity|].
  split; [apply includes_iff; vm_compute; reflexivity|].
  split; [reflexivity|discriminate].
Qed.

Section Retry.

Variable network : string -> N -> exchange.
Variable timeout : N.

(** A response below 500 is handed over by [axios.get], not thrown. *)
Lemma below_500_resolves (url : string) (r : http_response) :
  network url (timeout * 1000)%N = Responded r ->
  (response_status r < 500)%N ->
  axios_get network url (timeout * 1000) = Return r.
Proof.
  intros Hnet Hlt. unfold axios_get, validateStatus. rewrite Hnet.
  apply N.ltb_lt in Hlt. now rewrite Hlt.
Qed.

(** The three ways in which the body of the inner [try] throws. *)
Lemma attempt_throws_iff (url : string) :
  (exists e, attempt network timeout url = Throw e) <->
  (exists e, network url (timeout * 1000)%N = NoResponse e)
  \/ (exists r, network url (timeout * 1000)%N = Responded r
                /\ ((500 <= response_status r)%N \/ response_data r = Truthy)).
Proof.
  unfold attempt, axios_get, validateStatus.
  destruct (network url (timeout * 1000)%N) as [e0|r] eqn:Hnet.
  - simpl. split; [intros _; left; now exists e0|intros _; now exists e0].
  - destruct (response_status r <? 500)%N eqn:Hlt.
    + apply N.ltb_lt in Hlt. simpl. unfold classify, responseText.
      destruct (response_data r) as [s| |] eqn:Hdata; simpl.
      * destruct (blocking_detected _ _);
          [|destruct ((400 <=? response_status r) && (response_status r <? 500))%N];
          (split; [intros [e He]; discriminate
                  |intros [[e He]|[r' [Hr [Hge|Hd]]]];
                   [discriminate|injection Hr as <-; lia|injection Hr as <-; congruence]]).
      * destruct (blocking_detected _ _);
          [|destruct ((400 <=? response_status r) && (response_status r <? 500))%N];
          (split; [intros [e He]; discriminate
                  |intros [[e He]|[r' [Hr [Hge|Hd]]]];
                   [discriminate|injection Hr as <-; lia|injection Hr as <-; congruence]]).
      * split; [intros _; right; exists r; tauto|intros _; eexists; reflexivity].
    + apply N.ltb_ge in Hlt. simpl.
      split; [intros _; right; exists r; tauto|intros _; eexists; reflexivity].
Qed.

End Retry.

(** C3, as the code has it. The prober requests http://domain first and
    requests https://domain when the HTTP attempt ends without an
    inspected response: there was no response (a transport-level error),
    or the response had a status of 500 or more, which validateStatus
    makes the request throw. A response with a status below 500 is handed
    over for inspection, not thrown, and, its body being text, ends the
    probe without a request to the other scheme. *)
Theorem retry_across_schemes
  (network : string -> N -> exchange) (timeout : N) (d : string) :
  let http := "http://" ++ d in
  let https := "https://" ++ d in
  (requests network (JString d) timeout = [http]
   \/ requests network (JString d) timeout = [http; https])
  /\ (forall e,
        network http (timeout * 1000)%N = NoResponse e ->
        requests network (JString d) timeout = [http; https])
  /\ (forall r,
        network http (timeout * 1000)%N = Responded r ->
        (500 <= response_status r)%N ->
        requests network (JString d) timeout = [http; https])
  /\ (forall url r,
        network url (timeout * 1000)%N = Responded r ->
        (response_status r < 500)%N ->
        axios_get network url (timeout * 1000) = Return r)
  /\ (forall r txt,
        network http (timeout * 1000)%N = Responded r ->
        (response_status r < 500)%N ->
        responseText r = Return txt ->
        requests network (JString d) timeout = [http]).
Proof.
  intros http https.
  assert (Hlog : forall result,
             attempt network timeout http = result ->
             requests network (JString d) timeout
             = match result with
               | Return _ => [http]
               | Throw _ => [http; https]
               end).
  { intros result <-. unfold requests. rewrite probe_string. fold http https.
    destruct (attempt network timeout http); [reflexivity|].
    destruct (attempt network timeout https); reflexivity. }
  assert (Hthrows : (exists e, attempt network timeout http = Throw e) ->
                    requests network (JString d) timeout = [http; https]).
  { intros [e He]. now rewrite (Hlog _ He). }
  repeat split.
  - rewrite (Hlog _ eq_refl).
    destruct (attempt network timeout http); tauto.
  - intros e He. apply Hthrows, attempt_throws_iff. left. now exists e.
  - intros r Hr Hge. apply Hthrows, attempt_throws_iff. right. exists r. tauto.
  - intros url r. apply below_500_resolves.
  - intros r txt Hr Hlt Htxt.
    pose proof (below_500_resolves network timeout http r Hr Hlt) as Hget.
    now rewrite (Hlog _ (attempt_resolved network timeout http r txt Hget Htxt)).
Qed.

(** C3, refuted as stated: both schemes answer 503. The HTTP attempt
    receives a status-level response, and HTTPS is requested all the
    same. *)
Lemma server_error_is_retried :
  always 503 "Service Unavailable" "http://example.com" (30 * 1000)%N
  = page 503 "Service Unavailable"
  /\ requests (always 503 "Service Unavailable") (JString "example.com") 30
     = ["http://example.com"; "https://example.com"]
  /\ checkWebsiteStatus (always 503 "Service Unavailable")
       (JString "example.com") 30 = Return connection_failed.
Proof. repeat split. Qed.

(** Every path through the prober ends in a classification. *)
Lemma probe_returns
  (network : string -> N -> exchange) (domain : js_value) (timeout : N) :
  exists result, checkWebsiteStatus network domain timeout = Return result.
Proof.
  unfold checkWebsiteStatus, probe.
  destruct (ToString domain) as [d|e]; [|eexists; reflexivity].
  cbn [try_urls].
  destruct (attempt network timeout ("http://" ++ d)); [eexists; reflexivity|].
  destruct (attempt network timeout ("https://" ++ d)); eexists; reflexivity.
Qed.

(** C4. The prober never throws: every call returns a classification.
    When both attempts throw it is broken, "Connection failed"; an
    exception of the outer [try] gives broken with the message of the
    exception, "Unknown error" when it has none. *)
Theorem prober_total
  (network : string -> N -> exchange) (domain : js_value) (timeout : N) :
  (exists result, checkWebsiteStatus network domain timeout = Return result)
  /\ (forall d e1 e2,
        domain = JString d ->
        attempt network timeout ("http://" ++ d) = Throw e1 ->
        attempt network timeout ("https://" ++ d) = Throw e2 ->
        checkWebsiteStatus network domain timeout = Return connection_failed)
  /\ (forall e,
        ToString domain = Throw e ->
        checkWebsiteStatus network domain timeout
        = Return {| check := st_broken;
                    error := Some match message e with
                                  | Some (String c m) => String c m
                                  | Some EmptyString | None => "Unknown error"
                                  end |}).
Proof.
  split; [|split].
  - apply probe_returns.
  - intros d e1 e2 -> H1 H2. unfold checkWebsiteStatus.
    rewrite probe_string, H1, H2. reflexivity.
  - intros e He. unfold checkWebsiteStatus, probe. rewrite He.
    unfold top_level_catch, message_or. simpl.
    destruct (message e) as [[|c m]|]; reflexivity.
Qed.

(** Scenario D: no response on either scheme. *)
Example probe_unreachable :
  checkWebsiteStatus unreachable (JString "example.org") 30
  = Return connection_failed.
Proof. reflexivity. Qed.

(** A [domain] whose conversion to a string throws is caught at the top
    level. *)
Example probe_unprintable :
  checkWebsiteStatus unreachable
    (JOther (Throw (Error "Cannot convert object to primitive value"))) 30
  = Return {| check := st_broken;
              error := Some "Cannot convert object to primitive value" |}.
Proof. reflexivity. Qed.

(** ** The aggregated collection *)

(** Scenario A. *)
Example row_entry_example_org :
  row_entry row_example_org
  = Some {| domain := "example.org"; status := "public"; owner := "alice";
            age := "3 years"; hosts := Finite 12;
            websiteStatus := unchecked; websiteError := None |}.
Proof. reflexivity. Qed.

Lemma some_domain_iff (l : list DomainEntry) (d : string) :
  some_domain l d = true <-> In d (map domain l).
Proof.
  unfold some_domain. rewrite existsb_exists, in_map_iff.
  split; intros [e [H1 H2]]; exists e.
  - apply String.eqb_eq in H2. tauto.
  - split; [tauto|]. apply String.eqb_eq. tauto.
Qed.

Lemma some_domain_false_iff (l : list DomainEntry) (d : string) :
  some_domain l d = false <-> ~ In d (map domain l).
Proof.
  rewrite <- some_domain_iff. destruct (some_domain l d); split; congruence.
Qed.

Lemma well_formed_iff (cells : row) :
  well_formed cells = true <-> exists entry, row_entry cells = Some entry.
Proof.
  unfold well_formed, row_entry.
  destruct (4 <=? List.length cells)%nat; simpl.
  - destruct (Js.truthy (Js.trim (first_text (cell_links (eq_ cells 0))))
              && Js.truthy (Js.trim (cell_text (eq_ cells 1)))).
    + split; [intros _; eexists; reflexivity|reflexivity].
    + split; [discriminate|intros [e He]; discriminate].
  - split; [discriminate|intros [e He]; discriminate].
Qed.

Lemma not_well_formed (cells : row) :
  well_formed cells = false -> row_entry cells = None.
Proof.
  intros Hwf. destruct (row_entry cells) as [e|] eqn:He; [|reflexivity].
  assert (well_formed cells = true) by (apply well_formed_iff; now exists e).
  congruence.
Qed.

(** The loop appends to both lists what it accepts. *)
Lemma fold_each_row_appends (rows : list row) :
  forall pageEntries allDomainEntries,
  exists accepted,
    fold_left each_row rows (pageEntries, allDomainEntries)
    = ((pageEntries ++ accepted)%list, (allDomainEntries ++ accepted)%list).
Proof.
  induction rows as [|r rows IH]; intros pe al; simpl.
  - exists []. now rewrite !app_nil_r.
  - destruct (row_entry r) as [e|].
    + destruct (some_domain al (domain e)); simpl.
      * apply IH.
      * destruct (IH (pe ++ [e])%list (al ++ [e])%list) as [acc Hacc].
        exists (e :: acc). rewrite Hacc, <- !app_assoc. reflexivity.
    + apply IH.
Qed.

Lemma fold_each_row_nodup (rows : list row) :
  forall pageEntries allDomainEntries,
    NoDup (map domain allDomainEntries) ->
    NoDup (map domain (snd (fold_left each_row rows
                              (pageEntries, allDomainEntries)))).
Proof.
  induction rows as [|r rows IH]; intros pe al Hnd; simpl; [exact Hnd|].
  destruct (row_entry r) as [e|]; [|now apply IH].
  destruct (some_domain al (domain e)) eqn:Hsome; simpl; [now apply IH|].
  apply IH. rewrite map_app. simpl.
  apply some_domain_false_iff in Hsome.
  apply NoDup_app; [exact Hnd|repeat constructor; intros []|].
  intros x Hx [<-|[]]. contradiction.
Qed.

(** Rows whose domains are all in the collection leave it as it is. *)
Lemma fold_each_row_known (rows : list row) :
  forall pageEntries allDomainEntries,
    (forall e, In e (row_entries rows) ->
               In (domain e) (map domain allDomainEntries)) ->
    fold_left each_row rows (pageEntries, allDomainEntries)
    = (pageEntries, allDomainEntries).
Proof.
  induction rows as [|r rows IH]; intros pe al Hknown; simpl; [reflexivity|].
  unfold row_entries in Hknown. simpl in Hknown.
  destruct (row_entry r) as [e|] eqn:He.
  - assert (Hs : some_domain al (domain e) = true).
    { apply some_domain_iff. apply Hknown. simpl. now left. }
    rewrite Hs. simpl. apply IH. intros e' He'. apply Hknown. simpl. now right.
  - apply IH. intros e' He'. apply Hknown. exact He'.
Qed.

(** After the loop the domain of every row that passed the guards is in
    the collection. *)
Lemma fold_each_row_covers (rows : list row) :
  forall pageEntries allDomainEntries e,
    In e (row_entries rows) \/ In (domain e) (map domain allDomainEntries) ->
    In (domain e)
       (map domain (snd (fold_left each_row rows
                           (pageEntries, allDomainEntries)))).
Proof.
  induction rows as [|r rows IH]; intros pe al e Hin; simpl.
  - destruct Hin as [[]|Hin]. exact Hin.
  - unfold row_entries in Hin. simpl in Hin.
    destruct (row_entry r) as [e0|] eqn:He0.
    + destruct (some_domain al (domain e0)) eqn:Hs; simpl.
      * apply IH. destruct Hin as [[<-|Hin]|Hin]; [right|now left|now right].
        now apply some_domain_iff.
      * apply IH. rewrite map_app, in_app_iff. simpl.
        destruct Hin as [[<-|Hin]|Hin]; [right; right; now left|now left|tauto].
    + apply IH. exact Hin.
Qed.

Lemma Set_from_acc_nodup (domains : list string) :
  forall seen, NoDup seen ->
  NoDup (fold_left
           (fun seen d => if existsb (String.eqb d) seen then seen
                          else (seen ++ [d])%list)
           domains seen).
Proof.
  induction domains as [|d domains IH]; intros seen Hnd; simpl; [exact Hnd|].
  apply IH. destruct (existsb (String.eqb d) seen) eqn:Hex; [exact Hnd|].
  apply NoDup_app; [exact Hnd|repeat constructor; intros []|].
  intros x Hx [<-|[]].
  assert (existsb (String.eqb d) seen = true)
    by (apply existsb_exists; exists d; split; [exact Hx|apply String.eqb_refl]).
  congruence.
Qed.

Lemma Set_from_nodup (domains : list string) : NoDup (Set_from domains).
Proof. apply Set_from_acc_nodup. constructor. Qed.

Lemma uniqueDomains_nodup (doc : document) : NoDup (uniqueDomains doc).
Proof. unfold uniqueDomains. apply NoDup_filter, Set_from_nodup. Qed.

Lemma map_domain_fallback (l : list string) :
  map domain (map fallback_entry l) = l.
Proof. rewrite map_map. simpl. apply map_id. Qed.

Section ScanFacts.

Variable network : string -> N -> exchange.
Variable registry : nat -> string -> completion document.

(** The callback of the checks always fulfils; it leaves the domain as
    it is and a status that a probe produced. *)
Lemma check_entry_returns (timeout : N) (entry : DomainEntry) :
  exists entry',
    check_entry network timeout entry = Return entry'
    /\ domain entry' = domain entry
    /\ (websiteStatus entry' = working \/ websiteStatus entry' = broken).
Proof.
  unfold check_entry. cbn [set_websiteStatus domain].
  destruct (probe_returns network (JString (domain entry)) timeout) as [w Hw].
  rewrite Hw. simpl.
  destruct w as [c err]. simpl.
  destruct err as [e|]; [destruct (Js.truthy e)|];
    (eexists; split; [reflexivity|]; simpl; split; [reflexivity|]);
    destruct c; simpl; tauto.
Qed.

Lemma checks_return (timeout : N) (entries : list DomainEntry) :
  exists checked,
    Promise_all (map (check_entry network timeout) entries) = Return checked
    /\ map domain checked = map domain entries
    /\ Forall (fun e => websiteStatus e = working \/ websiteStatus e = broken)
              checked.
Proof.
  induction entries as [|e entries [checked [Hall [Hdom Hst]]]]; simpl.
  - exists []. repeat split. constructor.
  - destruct (check_entry_returns timeout e) as [e' [He' [Hd Hs]]].
    rewrite He', Hall. simpl. exists (e' :: checked). simpl.
    repeat split; [now rewrite Hd, Hdom|now constructor].
Qed.

Lemma scan_pages_nodup (fuel : nat) :
  forall page allDomainEntries result,
    scan_pages registry fuel page allDomainEntries = Return result ->
    NoDup (map domain allDomainEntries) ->
    NoDup (map domain result).
Proof.
  induction fuel as [|fuel IH]; intros page al result; simpl.
  - intros [= <-]. tauto.
  - destruct (registry _ _) as [doc|e]; simpl; [|discriminate].
    destruct (extract_page (table_rows doc) al) as [pe al'] eqn:Hex.
    intros Hrun Hnd. apply (IH _ _ _ Hrun).
    replace al' with (snd (extract_page (table_rows doc) al))
      by now rewrite Hex.
    now apply fold_each_row_nodup.
Qed.

(** The entries that a scan is about to store carry pairwise different
    domains. *)
Lemma collect_nodup (timeout pages : N) (entries : list DomainEntry) :
  collect network registry timeout pages = Return entries ->
  NoDup (map domain entries).
Proof.
  unfold collect.
  destruct (scan_pages registry (N.to_nat pages) 1 []) as [al|e] eqn:Hscan;
    simpl; [|discriminate].
  assert (Hnd : NoDup (map domain al))
    by (apply (scan_pages_nodup _ _ _ _ Hscan); constructor).
  destruct (checks_return timeout al) as [checked [Hall [Hdom _]]].
  rewrite Hall. simpl.
  destruct (List.length checked =? 0)%nat eqn:Hlen.
  - destruct (registry (N.to_nat pages) baseUrl) as [doc|e]; simpl;
      [|discriminate].
    intros [= <-]. apply Nat.eqb_eq in Hlen.
    destruct checked; [|discriminate]. simpl.
    rewrite map_domain_fallback. apply uniqueDomains_nodup.
  - intros [= <-]. now rewrite Hdom.
Qed.

End ScanFacts.

(** C6. The collection of a scan never holds two records with the same
    domain name. The loop over a page keeps what the collection holds and
    appends what it accepts; a collection without repeats stays
    without repeats; a row is accepted only when its domain is not in the
    collection yet; running the loop on the same page a second time
    accepts nothing; and the records that a scan stores have pairwise
    different domains. *)
Theorem domains_unique :
  (forall rows all,
     exists accepted,
       extract_page rows all = (accepted, (all ++ accepted)%list))
  /\ (forall rows all,
        NoDup (map domain all) ->
        NoDup (map domain (snd (extract_page rows all))))
  /\ (forall page all cells entry,
        row_entry cells = Some entry ->
        In (domain entry) (map domain all) ->
        each_row (page, all) cells = (page, all))
  /\ (forall rows all,
        extract_page rows (snd (extract_page rows all))
        = ([], snd (extract_page rows all)))
  /\ (forall network registry timeout pages entries,
        collect network registry timeout pages = Return entries ->
        NoDup (map domain entries)).
Proof.
  repeat split.
  - intros rows all. unfold extract_page.
    destruct (fold_each_row_appends rows [] all) as [acc Hacc].
    exists acc. exact Hacc.
  - intros rows all. apply fold_each_row_nodup.
  - intros page all cells entry Hrow Hin. unfold each_row. rewrite Hrow.
    apply some_domain_iff in Hin. now rewrite Hin.
  - intros rows all. unfold extract_page at 1.
    apply fold_each_row_known. intros e He.
    apply fold_each_row_covers. now left.
  - intros network registry timeout pages entries.
    apply collect_nodup.
Qed.

(** ** Parsing the rows of a page *)

Lemma row_entries_well_formed (rows : list row) :
  Forall2 (fun cells entry => row_entry cells = Some entry)
          (filter well_formed rows) (row_entries rows).
Proof.
  induction rows as [|r rows IH]; simpl; [constructor|].
  unfold row_entries in *. simpl.
  destruct (row_entry r) as [e|] eqn:He.
  - assert (Hwf : well_formed r = true) by (apply well_formed_iff; now exists e).
    rewrite Hwf. simpl. now constructor.
  - destruct (well_formed r) eqn:Hwf; [|exact IH].
    apply well_formed_iff in Hwf. destruct Hwf as [e He']. congruence.
Qed.

Lemma fold_each_row_fresh (rows : list row) :
  forall pageEntries allDomainEntries,
    NoDup (map domain (row_entries rows)) ->
    (forall e, In e (row_entries rows) ->
               ~ In (domain e) (map domain allDomainEntries)) ->
    fold_left each_row rows (pageEntries, allDomainEntries)
    = ((pageEntries ++ row_entries rows)%list,
       (allDomainEntries ++ row_entries rows)%list).
Proof.
  induction rows as [|r rows IH]; intros pe al Hnd Hfresh; simpl.
  - now rewrite !app_nil_r.
  - unfold row_entries in *. simpl in *.
    destruct (row_entry r) as [e|] eqn:He; simpl in *.
    + assert (Hs : some_domain al (domain e) = false).
      { apply some_domain_false_iff. apply Hfresh. now left. }
      rewrite Hs. simpl. inversion Hnd as [|x l Hnotin Hnd']; subst.
      rewrite IH; [now rewrite <- !app_assoc|exact Hnd'|].
      intros e' He'. rewrite map_app, in_app_iff. simpl.
      intros [Hin|[Heq|[]]].
      * apply (Hfresh e'); [now right|exact Hin].
      * apply Hnotin. rewrite Heq. now apply in_map.
    + now apply IH.
Qed.

Lemma fold_each_row_skip (rows1 : list row) :
  forall r rows2 acc,
    row_entry r = None ->
    fold_left each_row (rows1 ++ r :: rows2)%list acc
    = fold_left each_row (rows1 ++ rows2)%list acc.
Proof.
  induction rows1 as [|r1 rows1 IH]; intros r rows2 acc Hr; simpl.
  - unfold each_row at 2. destruct acc as [pe al]. now rewrite Hr.
  - now apply IH.
Qed.

(** C7, as the code has it. When the well-formed rows of a page carry
    pairwise different domain names, none of them in the collection yet,
    the page yields exactly one record per well-formed row, in row order,
    and the same records are appended to the collection. A row with an
    empty domain name or an empty status yields nothing, and a row that
    is not well formed changes nothing about the other rows. *)
Theorem well_formed_rows_parsed (rows : list row) (all : list DomainEntry) :
  NoDup (map domain (row_entries rows)) ->
  (forall e, In e (row_entries rows) -> ~ In (domain e) (map domain all)) ->
  (exists parsed,
     extract_page rows all = (parsed, (all ++ parsed)%list)
     /\ List.length parsed = List.length (filter well_formed rows)
     /\ Forall2 (fun cells entry => row_entry cells = Some entry)
                (filter well_formed rows) parsed)
  /\ (forall cells, well_formed cells = false -> row_entry cells = None)
  /\ (forall rows1 cells rows2,
        rows = (rows1 ++ cells :: rows2)%list ->
        well_formed cells = false ->
        extract_page rows all = extract_page (rows1 ++ rows2)%list all).
Proof.
  intros Hnd Hfresh. repeat split.
  - exists (row_entries rows). repeat split.
    + unfold extract_page. now rewrite fold_each_row_fresh.
    + symmetry. apply (Forall2_length (row_entries_well_formed rows)).
    + apply row_entries_well_formed.
  - apply not_well_formed.
  - intros rows1 cells rows2 -> Hwf. unfold extract_page.
    apply fold_each_row_skip. now apply not_well_formed.
Qed.

Lemma well_formed_rows_parsed_witness :
  exists parsed,
    extract_page [row_example_org; [text_cell "header"]; row_mooo_com] []
    = (parsed, parsed)
    /\ List.length parsed = 2%nat
    /\ map domain parsed = ["example.org"; "mooo.com"].
Proof.
  destruct (well_formed_rows_parsed
              [row_example_org; [text_cell "header"]; row_mooo_com] [])
    as [[parsed [Hrun [Hlen Hrows]]] _].
  - vm_compute. repeat constructor; simpl; intuition discriminate.
  - intros e _ [].
  - exists parsed. split; [exact Hrun|]. split; [exact Hlen|].
    replace parsed
      with (fst (extract_page
                   [row_example_org; [text_cell "header"]; row_mooo_com] []))
      by (rewrite Hrun; reflexivity).
    reflexivity.
Defined.

(** C7, refuted as stated: a page that lists a well-formed row twice has
    two well-formed rows and yields one record. *)
Lemma repeated_row_parsed_once :
  List.length (filter well_formed [row_example_org; row_example_org]) = 2%nat
  /\ List.length (fst (extract_page [row_example_org; row_example_org] []))
     = 1%nat.
Proof. split; reflexivity. Qed.

(** ** The host count *)

Lemma span_split (p : ascii -> bool) (s : string) :
  forall a b, span p s = (a, b) -> s = a ++ b /\ every p a.
Proof.
  induction s as [|c s IH]; intros a b; simpl.
  - intros [= <- <-]. now split.
  - destruct (p c) eqn:Hp.
    + destruct (span p s) as [a' b'] eqn:Hs. intros [= <- <-].
      destruct (IH a' b' eq_refl) as [-> Hall]. simpl. tauto.
    + intros [= <- <-]. now split.
Qed.

(** A run of [p] that is followed by a character outside [p] is what
    [span] takes. *)
Lemma span_run (p : ascii -> bool) (a : string) :
  forall c b, every p a -> p c = false ->
  span p (a ++ String c b) = (a, String c b).
Proof.
  induction a as [|x a IH]; intros c b Hall Hc; simpl.
  - now rewrite Hc.
  - destruct Hall as [Hx Hall]. now rewrite Hx, IH.
Qed.

Lemma span_all (p : ascii -> bool) (a : string) :
  every p a -> span p a = (a, "").
Proof.
  induction a as [|x a IH]; simpl; [reflexivity|].
  intros [Hx Hall]. now rewrite Hx, IH.
Qed.

Lemma space_not_digit (c : ascii) :
  Js.is_space c = true -> Js.is_digit c = false.
Proof.
  unfold Js.is_space, Js.is_digit, Js.between.
  rewrite !orb_true_iff, andb_true_iff, !N.leb_le, !N.eqb_eq.
  intros H. apply andb_false_iff. rewrite !N.leb_gt. lia.
Qed.

Lemma truthy_iff (s : string) : Js.truthy s = true <-> s <> "".
Proof. destruct s; simpl; split; congruence. Qed.

Lemma hosts_in_use_here_iff (s digits : string) :
  hosts_in_use_here s = Some digits <-> hosts_pattern_at s digits.
Proof.
  unfold hosts_in_use_here, hosts_pattern_at. split.
  - destruct s as [|c s1]; [discriminate|].
    destruct (Ascii.eqb c "(") eqn:Hc; [|discriminate].
    apply Ascii.eqb_eq in Hc. subst c.
    destruct (span Js.is_digit s1) as [ds s2] eqn:Hd.
    destruct (span Js.is_space s2) as [ws s3] eqn:Hw.
    destruct (Js.truthy ds) eqn:Tds; [|discriminate].
    destruct (Js.truthy ws) eqn:Tws; [|discriminate].
    destruct (Js.startsWith s3 "hosts in use)") eqn:Hst; [|discriminate].
    simpl. intros [= <-].
    apply span_split in Hd. apply span_split in Hw.
    apply startsWith_iff in Hst. destruct Hst as [rest ->].
    destruct Hd as [-> Hds]. destruct Hw as [-> Hws].
    exists ws, rest. apply truthy_iff in Tds. apply truthy_iff in Tws. tauto.
  - intros [spaces [rest [-> [Hne [Hds [Hsne Hws]]]]]].
    change ("(" ++ digits ++ spaces ++ "hosts in use)" ++ rest)
      with (String "(" (digits ++ spaces ++ "hosts in use)" ++ rest)).
    cbv beta iota. rewrite Ascii.eqb_refl.
    destruct spaces as [|w spaces]; [congruence|].
    destruct Hws as [Hw Hws].
    change (digits ++ String w spaces ++ "hosts in use)" ++ rest)
      with (digits ++ String w (spaces ++ "hosts in use)" ++ rest)).
    rewrite (span_run Js.is_digit digits w _ Hds (space_not_digit w Hw)).
    change (String w (spaces ++ "hosts in use)" ++ rest))
      with (String w spaces ++ String "h" ("osts in use)" ++ rest)).
    rewrite (span_run Js.is_space (String w spaces) "h" _ (conj Hw Hws) eq_refl).
    apply truthy_iff in Hne. rewrite Hne. reflexivity.
Qed.

Lemma hostMatch_unfold (s : string) :
  hostMatch s =
  match hosts_in_use_here s with
  | Some digits => Some digits
  | None => match s with
            | EmptyString => None
            | String _ s' => hostMatch s'
            end
  end.
Proof. destruct s; reflexivity. Qed.

Lemma no_match_here (s : string) :
  hosts_in_use_here s = None -> forall digits, ~ hosts_pattern_at s digits.
Proof.
  intros Hnone digits Hat. apply hosts_in_use_here_iff in Hat. congruence.
Qed.

(** [hostMatch] finds the leftmost match of the pattern. *)
Lemma hostMatch_leftmost (s : string) : leftmost_match s (hostMatch s).
Proof.
  induction s as [|c s IH]; rewrite hostMatch_unfold.
  - simpl. constructor.
  - destruct (hosts_in_use_here (String c s)) as [digits|] eqn:Hhere.
    + apply match_here. now apply hosts_in_use_here_iff.
    + apply match_later; [now apply no_match_here|exact IH].
Qed.

Lemma leftmost_match_hostMatch (s : string) (m : option string) :
  leftmost_match s m -> hostMatch s = m.
Proof.
  induction 1 as [s digits Hat|c s m Hno _ IH|]; rewrite hostMatch_unfold.
  - apply hosts_in_use_here_iff in Hat. now rewrite Hat.
  - destruct (hosts_in_use_here (String c s)) as [digits|] eqn:Hhere;
      [|exact IH].
    apply hosts_in_use_here_iff in Hhere. now destruct (Hno digits).
  - reflexivity.
Qed.

Lemma to_double_exact (n : N) : (n <= 2 ^ 53)%N -> to_double n = Finite n.
Proof.
  intros Hle. unfold to_double.
  destruct (n <? 2 ^ 53)%N eqn:Hlt; [reflexivity|].
  apply N.ltb_ge in Hlt. assert (n = 2 ^ 53)%N as -> by lia.
  vm_compute. reflexivity.
Qed.

Lemma parseInt_digits (digits : string) :
  digits <> "" -> every Js.is_digit digits ->
  parseInt digits = to_double (decimal_value digits).
Proof.
  intros Hne Hds. unfold parseInt. rewrite (span_all _ _ Hds).
  apply truthy_iff in Hne. now rewrite Hne.
Qed.

(** [decimal_value] reads back what [Js.decimal] writes. *)
Lemma digits_value_acc (d : Decimal.uint) :
  forall acc : positive,
    digits_value (N.pos acc) (NilEmpty.string_of_uint d)
    = N.pos (Pos.of_uint_acc d acc).
Proof.
  induction d; intros acc;
    cbn [NilEmpty.string_of_uint digits_value Pos.of_uint_acc];
    [reflexivity| ..];
    match goal with
    | |- digits_value ?a _ = N.pos (Pos.of_uint_acc _ ?b) =>
        replace a with (N.pos b); [apply IHd|]
    end;
    match goal with
    | |- context [Js.code ?c] =>
        let v := eval vm_compute in (Js.code c) in
        change (Js.code c) with v
    end; lia.
Qed.

Lemma digits_value_uint (d : Decimal.uint) :
  digits_value 0 (NilEmpty.string_of_uint d) = N.of_uint d.
Proof.
  unfold N.of_uint.
  induction d;
    cbn [NilEmpty.string_of_uint digits_value Pos.of_uint];
    [reflexivity|exact IHd| ..];
    apply (digits_value_acc d).
Qed.

Lemma decimal_value_decimal (k : N) : decimal_value (Js.decimal k) = k.
Proof.
  unfold decimal_value, Js.decimal. rewrite digits_value_uint.
  apply DecimalN.Unsigned.of_to.
Qed.

Lemma leftmost_match_digits (s : string) (m : option string) :
  leftmost_match s m ->
  forall digits, m = Some digits -> digits <> "" /\ every Js.is_digit digits.
Proof.
  induction 1 as [s ds Hat|c s m Hno _ IH|]; intros digits Hm.
  - injection Hm as <-. destruct Hat as [ws [rest H]]. tauto.
  - now apply IH.
  - discriminate.
Qed.

Lemma row_entry_hosts (cells : row) (entry : DomainEntry) :
  row_entry cells = Some entry ->
  hosts entry = hostCount_of (eq_ cells 0).
Proof.
  unfold row_entry.
  destruct (4 <=? List.length cells)%nat; [|discriminate].
  destruct (Js.truthy _ && Js.truthy _); [|discriminate].
  now intros [= <-].
Qed.

Lemma hostCount_of_match (cells : row) (m : option string) :
  leftmost_match (hostText_of cells) m ->
  hostCount_of (eq_ cells 0)
  = match m with
    | Some digits => to_double (decimal_value digits)
    | None => Finite 0
    end.
Proof.
  intros Hm. pose proof (leftmost_match_digits _ _ Hm) as Hdigits.
  apply leftmost_match_hostMatch in Hm.
  unfold hostCount_of, hostText_of in *.
  destruct (cell_spans (eq_ cells 0)) as [|sp spans]; simpl (0 <? _)%nat; cbv iota.
  - simpl in Hm. now subst m.
  - rewrite Hm. destruct m as [digits|]; [|reflexivity].
    destruct (Hdigits digits eq_refl) as [Hne Hds].
    now apply parseInt_digits.
Qed.

(** C9, as the code has it. The pattern "(<k> hosts in use)" is matched
    against the texts of the spans of the first cell, one after the
    other. The host count of a parsed row is the number that the digits
    of the leftmost match write, held as a double: it equals that integer
    k when k is at most 2^53. It is 0 when the pattern matches nowhere. *)
Theorem host_count_captured
  (cells : row) (entry : DomainEntry) (m : option string) :
  row_entry cells = Some entry ->
  leftmost_match (hostText_of cells) m ->
  match m with
  | Some digits =>
      hosts entry = to_double (decimal_value digits)
      /\ ((decimal_value digits <= 2 ^ 53)%N ->
          hosts entry = Finite (decimal_value digits))
  | None => hosts entry = Finite 0
  end.
Proof.
  intros Hrow Hm.
  rewrite (row_entry_hosts _ _ Hrow), (hostCount_of_match _ _ Hm).
  destruct m as [digits|]; [|reflexivity].
  split; [reflexivity|apply to_double_exact].
Qed.

Lemma host_count_captured_witness :
  exists entry, row_entry row_mooo_com = Some entry
                /\ hosts entry = Finite 4093.
Proof.
  eexists. split; [reflexivity|].
  refine (proj2 (host_count_captured row_mooo_com _ (Some "4093")
                   eq_refl _) _).
  - change (Some "4093") with (hostMatch (hostText_of row_mooo_com)).
    apply hostMatch_leftmost.
  - vm_compute. discriminate.
Defined.

(** C9, refuted as stated: the captured integer 2^53 + 1 is stored as
    2^53. *)
Lemma host_count_rounded :
  let cells := registry_row "big.example.org" "(9007199254740993 hosts in use)"
                            "public" "alice" "1 day ago" in
  leftmost_match (hostText_of cells) (Some (Js.decimal 9007199254740993))
  /\ option_map hosts (row_entry cells) = Some (Finite 9007199254740992).
Proof.
  split; [|reflexivity].
  apply (hostMatch_leftmost
           (hostText_of (registry_row "big.example.org"
                           "(9007199254740993 hosts in use)"
                           "public" "alice" "1 day ago"))).
Qed.

(** ** The fallback *)

(** What does hold of the fallback records: no registry domain among
    them, none twice, the sentinel fields. *)
Lemma fallback_records (doc : document) :
  NoDup (uniqueDomains doc)
  /\ Forall (fun d => ~ occurs_in "freedns" d /\ ~ occurs_in "afraid" d)
            (uniqueDomains doc)
  /\ Forall (fun e => status e = "unknown" /\ owner e = "unknown"
                      /\ age e = "unknown" /\ hosts e = Finite 0
                      /\ websiteStatus e = unchecked)
            (map fallback_entry (uniqueDomains doc)).
Proof.
  split; [apply uniqueDomains_nodup|split].
  - apply Forall_forall. intros d Hd. unfold uniqueDomains in Hd.
    apply filter_In in Hd. destruct Hd as [_ Hkeep]. unfold keep_domain in Hkeep.
    destruct (negb (Js.truthy d) || (String.length d =? 0)%nat); [discriminate|].
    destruct (Js.includes d "freedns") eqn:Hf; [discriminate|].
    destruct (Js.includes d "afraid") eqn:Ha; [discriminate|].
    apply includes_false_iff in Hf. apply includes_false_iff in Ha. tauto.
  - apply Forall_forall. intros e He. apply in_map_iff in He.
    destruct He as [d [<- _]]. simpl. tauto.
Qed.

(** C8, at the failing input: the link text "www.example.com" is emitted
    with its prefix. The filter tests the stripped name and keeps the
    element as it stood. *)
Theorem fallback_keeps_www_prefix :
  uniqueDomains (links_only ["www.example.com"; "freedns.afraid.org"])
  = ["www.example.com"]
  /\ map domain (map fallback_entry
                   (uniqueDomains
                      (links_only ["www.example.com"; "freedns.afraid.org"])))
     = ["www.example.com"]
  /\ Js.startsWith "www.example.com" "www." = true.
Proof. repeat split. Qed.

(** ** The scan route *)

Section RouteFacts.

Context {S : Type} {storage : IStorage S}.
Variable network : string -> N -> exchange.
Variable registry : nat -> string -> completion document.
Variable insertDomainScanSchema_parse
  : InsertDomainScan -> completion InsertDomainScan.

(** The records about to be stored were all probed, unless they come
    from the fallback. *)
Lemma collect_statuses (timeout pages : N) (entries : list DomainEntry) :
  collect network registry timeout pages = Return entries ->
  Forall (fun e => websiteStatus e = working \/ websiteStatus e = broken)
         entries
  \/ exists doc,
       registry (N.to_nat pages) baseUrl = Return doc
       /\ entries = map fallback_entry (uniqueDomains doc).
Proof.
  unfold collect.
  destruct (scan_pages registry (N.to_nat pages) 1 []) as [al|e]; simpl;
    [|discriminate].
  destruct (checks_return network timeout al) as [checked [Hall [_ Hst]]].
  rewrite Hall. simpl.
  destruct (List.length checked =? 0)%nat eqn:Hlen.
  - destruct (registry (N.to_nat pages) baseUrl) as [doc|e]; simpl;
      [|discriminate].
    intros [= <-]. right. exists doc. split; [reflexivity|].
    apply Nat.eqb_eq in Hlen. now destruct checked.
  - intros [= <-]. now left.
Qed.

(** The loop over the pages stops at the first request that is
    rejected. *)
Lemma scan_pages_throws (fuel : nat) :
  forall (page : N) (all : list DomainEntry) (k : nat) (e : thrown),
    (1 <= page)%N ->
    (k < fuel)%nat ->
    registry (N.to_nat page - 1 + k) (targetUrl (page + N.of_nat k)) = Throw e ->
    (forall j, (j < k)%nat ->
       exists doc, registry (N.to_nat page - 1 + j)
                            (targetUrl (page + N.of_nat j)) = Return doc) ->
    scan_pages registry fuel page all = Throw e.
Proof.
  induction fuel as [|fuel IH]; intros page all k e Hpage Hk Hthrow Hbefore;
    [lia|].
  cbn [scan_pages]. destruct k as [|k].
  - rewrite Nat.add_0_r, N.add_0_r in Hthrow. now rewrite Hthrow.
  - destruct (Hbefore 0%nat) as [doc Hdoc]; [lia|].
    rewrite Nat.add_0_r, N.add_0_r in Hdoc. rewrite Hdoc. simpl.
    destruct (extract_page (table_rows doc) all) as [pe all'].
    apply (IH (page + 1)%N all' k e); [lia|lia| |].
    + replace (N.to_nat (page + 1) - 1 + k)%nat
        with (N.to_nat page - 1 + Datatypes.S k)%nat by lia.
      replace (page + 1 + N.of_nat k)%N
        with (page + N.of_nat (Datatypes.S k))%N by lia.
      exact Hthrow.
    + intros j Hj. destruct (Hbefore (Datatypes.S j)) as [doc' Hdoc']; [lia|].
      exists doc'.
      replace (N.to_nat (page + 1) - 1 + j)%nat
        with (N.to_nat page - 1 + Datatypes.S j)%nat by lia.
      replace (page + 1 + N.of_nat j)%N
        with (page + N.of_nat (Datatypes.S j))%N by lia.
      exact Hdoc'.
Qed.

Lemma scan_try_throws (timeout pages : N) (store : S) (e : thrown) :
  collect network registry timeout pages = Throw e ->
  scan_try network registry insertDomainScanSchema_parse timeout pages store
  = (Throw e, store).
Proof. intros Hc. unfold scan_try. now rewrite Hc. Qed.

End RouteFacts.

(** C5. When the [try] block of the scan throws, the handler calls the
    store with status failed and no records, goes on whatever that call
    does (returns or throws), and answers 500 with the message of the
    original error and no records. A page request that is rejected, on
    any page, is such a throw: the records of the pages before it are
    dropped. *)
Theorem failed_scan_persisted
  {S : Type} {storage : IStorage S}
  (network : string -> N -> exchange)
  (registry : nat -> string -> completion document)
  (parse : InsertDomainScan -> completion InsertDomainScan)
  (timeout pages : N) (store : S) :
  (forall e store',
     scan_try network registry parse timeout pages store = (Throw e, store') ->
     scan_domains network registry parse timeout pages store
     = (Failure500 (if instanceofError e then message e
                    else Some "Unknown error occurred")
                   "Failed to scan FreeDNS registry",
        snd (createDomainScan failedScanData store')))
  /\ (forall (k : nat) e,
        (N.of_nat k < pages)%N ->
        registry k (targetUrl (N.of_nat (Datatypes.S k))) = Throw e ->
        (forall j, (j < k)%nat ->
           exists doc, registry j (targetUrl (N.of_nat (Datatypes.S j)))
                       = Return doc) ->
        scan_try network registry parse timeout pages store = (Throw e, store)).
Proof.
  split.
  - intros e store' Htry. unfold scan_domains. rewrite Htry. reflexivity.
  - intros k e Hk Hthrow Hbefore. apply scan_try_throws. unfold collect.
    rewrite (scan_pages_throws registry (N.to_nat pages) 1 [] k e);
      [reflexivity|lia|lia| |].
    + replace (1 + N.of_nat k)%N with (N.of_nat (Datatypes.S k)) by lia.
      exact Hthrow.
    + intros j Hj. destruct (Hbefore j Hj) as [doc Hdoc]. exists doc.
      replace (1 + N.of_nat j)%N with (N.of_nat (Datatypes.S j)) by lia.
      exact Hdoc.
Qed.

(** Scenario E: three pages are asked for and the request for page 2 is
    rejected. The record of page 1 is neither stored nor returned. *)
Lemma failed_scan_persisted_witness :
  @scan_domains MemStorage sample_storage
    (always 200 "ok")
    (page_2_fails {| table_rows := [row_example_org]; anchors := [] |})
    no_validation 30 3 empty_store
  = (Failure500 (Some "socket hang up") "Failed to scan FreeDNS registry",
     {| domainScans :=
          [("scan-0", {| id := "scan-0"; domains := [];
                         scanStatus := failed;
                         scannedAt := 1700000000000 |})];
        drawn := 1 |}).
Proof.
  pose proof (@failed_scan_persisted MemStorage sample_storage
                (always 200 "ok")
                (page_2_fails {| table_rows := [row_example_org];
                                 anchors := [] |})
                no_validation 30 3 empty_store) as [Hcatch Hfetch].
  rewrite (Hcatch (Error "socket hang up") empty_store).
  - reflexivity.
  - apply (Hfetch 1%nat).
    + reflexivity.
    + reflexivity.
    + intros j Hj. assert (j = 0%nat) as -> by lia.
      eexists. reflexivity.
Defined.

(** The failure record is written on a best-effort basis: with a store
    that refuses every write the caller still gets the original error. *)
Example failed_scan_not_persisted :
  @scan_domains unit refusing_storage
    (always 200 "ok")
    (page_2_fails {| table_rows := [row_example_org]; anchors := [] |})
    no_validation 30 3 tt
  = (Failure500 (Some "socket hang up") "Failed to scan FreeDNS registry", tt).
Proof. reflexivity. Qed.

(** A scan of the registry table: both records are probed before they
    are stored. *)
Example scan_table :
  exists scan msg,
    fst (@scan_domains MemStorage sample_storage
           (https_only 200 "<html>hello</html>")
           (same_page {| table_rows := [row_example_org; row_mooo_com];
                         anchors := [] |})
           no_validation 30 1 empty_store)
    = Success scan msg
    /\ scanStatus scan = completed
    /\ map (fun e => (domain e, websiteStatus e)) (domains scan)
       = [("example.org", working); ("mooo.com", working)]
    /\ msg = "Successfully extracted 2 domains from 1 page(s) of FreeDNS registry. Website checks: 2 working, 0 broken.".
Proof. eexists. eexists. repeat split. Qed.

(** C1, at the failing input: the page has no registry row and one link
    whose text is a host name. The checks run over the empty collection,
    the fallback fills it afterwards, and the scan is stored as completed
    with a record that was never probed. *)
Theorem fallback_records_stay_unchecked :
  exists scan msg,
    fst (@scan_domains MemStorage sample_storage
           (always 200 "<html>hello</html>")
           (same_page (links_only ["example.com"]))
           no_validation 30 1 empty_store)
    = Success scan msg
    /\ scanStatus scan = completed
    /\ domains scan = [fallback_entry "example.com"]
    /\ Forall (fun e => websiteStatus e = unchecked) (domains scan)
    /\ msg = "Successfully extracted 1 domains from 1 page(s) of FreeDNS registry. Website checks: 0 working, 0 broken.".
Proof.
  eexists. eexists. split; [reflexivity|].
  repeat split. repeat constructor.
Qed.

(** ** The embedded primitives on examples *)

Example toLowerCase_example :
  Js.toLowerCase "HTTP://Blocked.Example.COM/Path-1" = "http://blocked.example.com/path-1".
Proof. reflexivity. Qed.

Example trim_example :
  Js.trim (String "009" (String "010" "  mooo.com  ")) = "mooo.com"
  /\ Js.trim "   " = "" /\ Js.trim "a  b" = "a  b".
Proof. repeat split. Qed.

Example decimal_example :
  Js.decimal 404 = "404" /\ Js.decimal 0 = "0".
Proof. split; reflexivity. Qed.

Example to_double_examples :
  to_double 4093 = Finite 4093
  /\ to_double (2 ^ 53 + 1) = Finite (2 ^ 53)
  /\ to_double (2 ^ 53 + 2) = Finite (2 ^ 53 + 2)
  /\ to_double (2 ^ 53 + 3) = Finite (2 ^ 53 + 4)
  /\ to_double (2 ^ 1024) = Infinity.
Proof. repeat split; vm_compute; reflexivity. Qed.

Example hostMatch_examples :
  hostMatch "(12 hosts in use)" = Some "12"
  /\ hostMatch "x ((7  hosts in use) (8 hosts in use)" = Some "7"
  /\ hostMatch "(12hosts in use)" = None
  /\ hostMatch "( hosts in use)" = None.
Proof. repeat split. Qed.

Example hostname_test_examples :
  hostname_test "example.com" = true
  /\ hostname_test "a-b.c.d.io" = true
  /\ hostname_test "example.c" = false
  /\ hostname_test ".com" = false
  /\ hostname_test "example.c0m" = false
  /\ hostname_test "ex ample.com" = false.
Proof. repeat split. Qed.

Lemma tld_iff (s : string) :
  tld s = true <-> (2 <= String.length s)%nat /\ every Js.is_letter s.
Proof.
  unfold tld. rewrite andb_true_iff, Nat.leb_le.
  assert (H : forallb Js.is_letter (list_ascii_of_string s) = true
              <-> every Js.is_letter s).
  { induction s as [|c s IH]; simpl; [tauto|].
    rewrite andb_true_iff, IH. tauto. }
  rewrite H. tauto.
Qed.

Lemma hostname_rest_iff (s : string) :
  hostname_rest s = true <->
  exists a b, s = a ++ "." ++ b /\ every host_char a
              /\ (2 <= String.length b)%nat /\ every Js.is_letter b.
Proof.
  induction s as [|c s IH]; simpl.
  - split; [discriminate|]. intros [a [b [Hs _]]]. destruct a; discriminate.
  - rewrite orb_true_iff, !andb_true_iff, Ascii.eqb_eq, tld_iff, IH. split.
    + intros [[-> Htld]|[Hc [a [b [-> Hab]]]]].
      * exists "", s. simpl. tauto.
      * exists (String c a), b. simpl. tauto.
    + intros [a [b [Hs [Ha Hb]]]]. destruct a as [|x a]; simpl in Hs.
      * injection Hs as -> ->. left. tauto.
      * injection Hs as -> ->. destruct Ha as [Hx Ha].
        right. split; [exact Hx|]. exists a, b. tauto.
Qed.

(** The host name pattern: one or more characters among letters, digits,
    dot and hyphen, a dot, two or more letters. *)
Lemma hostname_test_iff (s : string) :
  hostname_test s = true <->
  exists a b, s = a ++ "." ++ b /\ a <> "" /\ every host_char a
              /\ (2 <= String.length b)%nat /\ every Js.is_letter b.
Proof.
  destruct s as [|c s]; simpl.
  - split; [discriminate|]. intros [a [b [Hs _]]]. destruct a; discriminate.
  - rewrite andb_true_iff, hostname_rest_iff. split.
    + intros [Hc [a [b [-> Hab]]]]. exists (String c a), b. simpl.
      repeat split; try tauto. discriminate.
    + intros [a [b [Hs [Hne [Ha Hb]]]]]. destruct a as [|x a]; [congruence|].
      simpl in Hs. injection Hs as -> ->. destruct Ha as [Hx Ha].
      split; [exact Hx|]. exists a, b. tauto.
Qed.

(** ** The maps of [MemStorage] *)

Lemma Map_set_JsMap (m : list (string * DomainScan)) (key : string)
  (value : DomainScan) :
  Map_set m key value = JsMap.set m key value.
Proof.
  induction m as [|[k v] m IH]; simpl; [reflexivity|].
  now rewrite IH.
Qed.

Section JsMapFacts.

Context {V : Type}.
Implicit Types (m : list (string * V)) (key : string) (value : V).

Lemma get_set_same m key value :
  JsMap.get (JsMap.set m key value) key = Some value.
Proof.
  induction m as [|[k v] m IH]; simpl.
  - now rewrite String.eqb_refl.
  - destruct (String.eqb k key) eqn:Hk; simpl.
    + now rewrite String.eqb_refl.
    + now rewrite Hk.
Qed.

Lemma get_set_other m key value key' :
  key' <> key ->
  JsMap.get (JsMap.set m key value) key' = JsMap.get m key'.
Proof.
  intros Hne. induction m as [|[k v] m IH]; simpl.
  - destruct (String.eqb key key') eqn:Hk; [|reflexivity].
    apply String.eqb_eq in Hk. congruence.
  - destruct (String.eqb k key) eqn:Hk; simpl.
    + apply String.eqb_eq in Hk. subst k.
      destruct (String.eqb key key') eqn:Hk'; [|reflexivity].
      apply String.eqb_eq in Hk'. congruence.
    + now rewrite IH.
Qed.

Lemma get_None_not_key m key :
  JsMap.get m key = None <-> ~ In key (map fst m).
Proof.
  induction m as [|[k v] m IH]; simpl; [tauto|].
  destruct (String.eqb k key) eqn:Hk.
  - apply String.eqb_eq in Hk. split; [discriminate|tauto].
  - apply String.eqb_neq in Hk. rewrite IH. tauto.
Qed.

(** A new key goes to the end. *)
Lemma set_fresh m key value :
  JsMap.get m key = None ->
  JsMap.set m key value = (m ++ [(key, value)])%list.
Proof.
  induction m as [|[k v] m IH]; simpl; [reflexivity|].
  destruct (String.eqb k key); [discriminate|].
  intros Hget. now rewrite IH.
Qed.

Lemma set_keys_nodup m key value :
  NoDup (map fst m) -> NoDup (map fst (JsMap.set m key value)).
Proof.
  induction m as [|[k v] m IH]; simpl; intros Hnd.
  - repeat constructor. intros [].
  - inversion Hnd as [|x l Hnotin Hnd']; subst.
    destruct (String.eqb k key) eqn:Hk; simpl.
    + apply String.eqb_eq in Hk. subst k. now constructor.
    + constructor; [|now apply IH].
      apply String.eqb_neq in Hk. intros Hin. apply Hnotin.
      clear -Hin Hk. induction m as [|[k' v'] m IHm]; simpl in *.
      * destruct Hin as [Heq|[]]. congruence.
      * destruct (String.eqb k' key); simpl in *.
        -- destruct Hin as [Heq|Hin]; [congruence|tauto].
        -- destruct Hin as [Heq|Hin]; [tauto|]. right. now apply IHm.
Qed.

Lemma values_set_in m key value :
  In value (JsMap.values (JsMap.set m key value))
  /\ (forall v, In v (JsMap.values (JsMap.set m key value)) ->
                v = value \/ In v (JsMap.values m)).
Proof.
  unfold JsMap.values. induction m as [|[k v0] m [IH1 IH2]]; simpl.
  - split; [now left|]. intros v [<-|[]]. now left.
  - destruct (String.eqb k key); simpl.
    + split; [now left|]. intros v [<-|Hin]; tauto.
    + split; [now right|]. intros v [<-|Hin]; [tauto|].
      destruct (IH2 v Hin); tauto.
Qed.

End JsMapFacts.

(** X1. [createUser] followed by [getUser] on the identifier it drew
    gives the user back, with the name and password that were passed;
    the users under other identifiers are as before; the keys of the map
    stay pairwise different. *)
Theorem createUser_getUser
  (id : string) (insertUser : InsertUser) (users : list (string * User)) :
  let (user, users') := Mem_createUser id insertUser users in
  Mem_getUser users' id = Some user
  /\ User_id user = id
  /\ User_username user = username insertUser
  /\ User_password user = password insertUser
  /\ (forall id', id' <> id -> Mem_getUser users' id' = Mem_getUser users id')
  /\ (NoDup (map fst users) -> NoDup (map fst users')).
Proof.
  unfold Mem_createUser, Mem_getUser. repeat split.
  - apply get_set_same.
  - intros id' Hne. now apply get_set_other.
  - apply set_keys_nodup.
Qed.

Lemma find_username_in (l : list User) (name : string) (u : User) :
  find (fun user => String.eqb (User_username user) name) l = Some u ->
  In u l /\ User_username u = name.
Proof.
  intros Hfind. apply find_some in Hfind. destruct Hfind as [Hin Heq].
  apply String.eqb_eq in Heq. tauto.
Qed.

(** X2. [getUserByUsername] answers a stored user that carries the name,
    and [undefined] exactly when no stored user carries it. Names are not
    kept unique: after [createUser] with a name that no user carries the
    lookup answers the new user, and with a name that a user carries
    already (under a fresh identifier) it goes on answering the older
    user. *)
Theorem getUserByUsername_first
  (users : list (string * User)) (name : string) :
  (forall u, Mem_getUserByUsername users name = Some u ->
             In u (JsMap.values users) /\ User_username u = name)
  /\ (Mem_getUserByUsername users name = None <->
      forall u, In u (JsMap.values users) -> User_username u <> name)
  /\ (forall id pw,
        Mem_getUserByUsername users name = None ->
        let (user, users') :=
          Mem_createUser id {| username := name; password := pw |} users in
        Mem_getUserByUsername users' name = Some user)
  /\ (forall id pw older,
        Mem_getUserByUsername users name = Some older ->
        Mem_getUser users id = None ->
        Mem_getUserByUsername
          (snd (Mem_createUser id {| username := name; password := pw |} users))
          name = Some older).
Proof.
  unfold Mem_getUserByUsername. split; [|split; [|split]].
  - intros u. apply find_username_in.
  - split.
    + intros Hnone u Hin Heq.
      apply (find_none _ _ Hnone) in Hin. simpl in Hin.
      apply String.eqb_neq in Hin. contradiction.
    + intros Hall.
      destruct (find _ (JsMap.values users)) as [u|] eqn:Hfind; [|reflexivity].
      apply find_username_in in Hfind. destruct Hfind as [Hin Heq].
      now destruct (Hall u Hin).
  - intros id pw Hnone. unfold Mem_createUser.
    set (user := {| User_id := id; User_username := name; User_password := pw |}).
    simpl username. simpl password. fold user.
    destruct (values_set_in users id user) as [Hin Hfrom].
    destruct (find _ (JsMap.values (JsMap.set users id user))) as [u|] eqn:Hfind.
    + apply find_username_in in Hfind. destruct Hfind as [Hu Heq].
      destruct (Hfrom u Hu) as [->|Hold]; [reflexivity|].
      apply (find_none _ _ Hnone) in Hold. simpl in Hold.
      apply String.eqb_neq in Hold. contradiction.
    + apply (find_none _ _ Hfind) in Hin. simpl in Hin.
      now rewrite String.eqb_refl in Hin.
  - intros id pw older Hfind Hfresh. unfold Mem_createUser, Mem_getUser in *.
    simpl. rewrite (set_fresh _ _ _ Hfresh). unfold JsMap.values.
    rewrite map_app. simpl.
    revert Hfind. unfold JsMap.values.
    generalize (map snd users). intros l.
    induction l as [|x l IH]; simpl; [discriminate|].
    destruct (String.eqb (User_username x) name); [tauto|exact IH].
Qed.

(** ** Sorting the scans *)

Section SortFacts.

Context {A : Type}.
Variable key : A -> N.

(** The comparator of a descending sort on [key]. *)
Let desc (a b : A) : Z := (Z.of_N (key b) - Z.of_N (key a))%Z.

Lemma desc_le (x y : A) : (desc x y <=? 0)%Z = (key y <=? key x)%N.
Proof.
  unfold desc. destruct (key y <=? key x)%N eqn:H.
  - apply N.leb_le in H. apply Z.leb_le. lia.
  - apply N.leb_gt in H. apply Z.leb_gt. lia.
Qed.

Lemma sort_insert_perm (x : A) (l : list A) :
  Permutation (sort_insert desc x l) (x :: l).
Proof.
  induction l as [|y l IH]; simpl; [reflexivity|].
  destruct (desc x y <=? 0)%Z; [reflexivity|].
  rewrite IH. apply perm_swap.
Qed.

Lemma Array_sort_perm (l : list A) : Permutation (Array_sort desc l) l.
Proof.
  induction l as [|x l IH]; simpl; [reflexivity|].
  rewrite sort_insert_perm. now constructor.
Qed.

Lemma sort_insert_sorted (x : A) (l : list A) :
  StronglySorted (fun a b => (key b <= key a)%N) l ->
  StronglySorted (fun a b => (key b <= key a)%N) (sort_insert desc x l).
Proof.
  induction 1 as [|y l Hl IH Hy]; simpl.
  - repeat constructor.
  - rewrite desc_le. destruct (key y <=? key x)%N eqn:Hle.
    + apply N.leb_le in Hle. constructor; [now constructor|].
      constructor; [exact Hle|].
      apply Forall_forall. intros z Hz.
      rewrite Forall_forall in Hy. specialize (Hy z Hz). lia.
    + apply N.leb_gt in Hle. constructor; [exact IH|].
      apply Forall_forall. intros z Hz.
      apply (Permutation_in _ (sort_insert_perm x l)) in Hz.
      destruct Hz as [<-|Hz]; [lia|].
      rewrite Forall_forall in Hy. now apply Hy.
Qed.

Lemma Array_sort_sorted (l : list A) :
  StronglySorted (fun a b => (key b <= key a)%N) (Array_sort desc l).
Proof.
  induction l as [|x l IH]; simpl; [constructor|].
  now apply sort_insert_sorted.
Qed.

Lemma sort_insert_stable (t : N) (x : A) (l : list A) :
  filter (fun a => (key a =? t)%N) (sort_insert desc x l)
  = filter (fun a => (key a =? t)%N) (x :: l).
Proof.
  induction l as [|y l IH]; simpl; [reflexivity|].
  rewrite desc_le. destruct (key y <=? key x)%N eqn:Hle; [reflexivity|].
  apply N.leb_gt in Hle. simpl in *. rewrite IH.
  destruct (key x =? t)%N eqn:Hx; destruct (key y =? t)%N eqn:Hy;
    try reflexivity.
  apply N.eqb_eq in Hx. apply N.eqb_eq in Hy. lia.
Qed.

Lemma Array_sort_stable (t : N) (l : list A) :
  filter (fun a => (key a =? t)%N) (Array_sort desc l)
  = filter (fun a => (key a =? t)%N) l.
Proof.
  induction l as [|x l IH]; simpl; [reflexivity|].
  rewrite sort_insert_stable. simpl. now rewrite IH.
Qed.

(** Element 0 after the sort: the greatest key, and the first of the
    elements that carry it. *)
Lemma Array_sort_head (l : list A) (r : A) (rest : list A) :
  Array_sort desc l = r :: rest ->
  exists l1 l2,
    l = (l1 ++ r :: l2)%list
    /\ (forall s, In s l1 -> (key s < key r)%N)
    /\ (forall s, In s l2 -> (key s <= key r)%N).
Proof.
  revert r rest. induction l as [|x l IH]; intros r rest; simpl;
    [discriminate|].
  destruct (Array_sort desc l) as [|m sorted] eqn:Hsort; simpl.
  - intros [= <- <-].
    assert (l = []) as ->.
    { apply Permutation_nil. rewrite <- Hsort. apply Array_sort_perm. }
    exists [], []. simpl. tauto.
  - destruct (IH m sorted eq_refl) as [l1 [l2 [-> [H1 H2]]]].
    rewrite desc_le. destruct (key m <=? key x)%N eqn:Hle.
    + apply N.leb_le in Hle. intros [= <- <-].
      exists [], (l1 ++ m :: l2)%list. simpl. repeat split; [tauto|].
      intros s Hs. apply in_app_iff in Hs.
      destruct Hs as [Hs|[<-|Hs]];
        [specialize (H1 s Hs)|exact Hle|specialize (H2 s Hs)]; lia.
    + apply N.leb_gt in Hle. intros [= <- <-].
      exists (x :: l1), l2. simpl. repeat split; [|exact H2].
      intros s [<-|Hs]; [exact Hle|now apply H1].
Qed.

End SortFacts.

(** X3. [getAllDomainScans] answers the stored scans, each one once,
    latest first; scans with the same date stay in the order in which
    they were stored. *)
Theorem getAllDomainScans_sorted (this : MemStorage) :
  Permutation (Mem_getAllDomainScans this) (JsMap.values (domainScans this))
  /\ StronglySorted (fun a b => (scannedAt b <= scannedAt a)%N)
                    (Mem_getAllDomainScans this)
  /\ (forall t,
        filter (fun s => (scannedAt s =? t)%N) (Mem_getAllDomainScans this)
        = filter (fun s => (scannedAt s =? t)%N)
                 (JsMap.values (domainScans this))).
Proof.
  unfold Mem_getAllDomainScans, by_scannedAt_desc. split; [|split].
  - apply (Array_sort_perm scannedAt).
  - apply (Array_sort_sorted scannedAt).
  - intros t. apply (Array_sort_stable scannedAt).
Qed.

Lemma latest_none_iff (this : MemStorage) :
  Mem_getLatestDomainScan this = None <-> domainScans this = [].
Proof.
  unfold Mem_getLatestDomainScan, by_scannedAt_desc.
  pose proof (Array_sort_perm scannedAt (JsMap.values (domainScans this)))
    as Hperm.
  destruct (Array_sort _ (JsMap.values (domainScans this))) as [|r rest].
  - split; [intros _|reflexivity].
    apply Permutation_nil in Hperm. unfold JsMap.values in Hperm.
    now destruct (domainScans this).
  - split; [discriminate|]. intros Hempty. rewrite Hempty in Hperm.
    symmetry in Hperm. apply Permutation_nil in Hperm. discriminate.
Qed.

Lemma latest_position (this : MemStorage) (latest : DomainScan) :
  Mem_getLatestDomainScan this = Some latest ->
  exists before after,
    JsMap.values (domainScans this) = (before ++ latest :: after)%list
    /\ (forall s, In s before -> (scannedAt s < scannedAt latest)%N)
    /\ (forall s, In s after -> (scannedAt s <= scannedAt latest)%N).
Proof.
  unfold Mem_getLatestDomainScan, by_scannedAt_desc.
  destruct (Array_sort _ (JsMap.values (domainScans this))) as [|r rest]
    eqn:Hsort; [discriminate|].
  intros [= <-]. now apply (Array_sort_head scannedAt) with (rest := rest).
Qed.

(** X4. [getLatestDomainScan] answers [undefined] exactly on a store
    without scans. Otherwise it answers a stored scan whose date no
    stored scan exceeds, and among the scans with that date the one that
    was stored first. *)
Theorem getLatestDomainScan_latest (this : MemStorage) :
  (Mem_getLatestDomainScan this = None <-> domainScans this = [])
  /\ (forall latest,
        Mem_getLatestDomainScan this = Some latest ->
        exists before after,
          JsMap.values (domainScans this) = (before ++ latest :: after)%list
          /\ (forall s, In s before -> (scannedAt s < scannedAt latest)%N)
          /\ (forall s, In s after -> (scannedAt s <= scannedAt latest)%N)).
Proof.
  split; [apply latest_none_iff|apply latest_position].
Qed.

Section CreateScan.

Variable randomUUID : nat -> string.
Variable Date_now : nat -> N.

(** X5. [createDomainScan] fulfils with a scan that carries the drawn
    identifier and date, the records that were passed and the status that
    was passed, [completed] when none was. The scan can be read back
    under its identifier and is among [getAllDomainScans]; what is stored
    under other identifiers is as before. *)
Theorem createDomainScan_stored
  (insertScan : InsertDomainScan) (this : MemStorage) :
  exists scan this',
    Mem_createDomainScan randomUUID Date_now insertScan this
    = (Return scan, this')
    /\ id scan = randomUUID (drawn this)
    /\ scannedAt scan = Date_now (drawn this)
    /\ domains scan = insert_domains insertScan
    /\ scanStatus scan = match insert_status insertScan with
                         | Some s => s
                         | None => completed
                         end
    /\ JsMap.get (domainScans this') (id scan) = Some scan
    /\ (forall id', id' <> id scan ->
          JsMap.get (domainScans this') id' = JsMap.get (domainScans this) id')
    /\ In scan (Mem_getAllDomainScans this')
    /\ (NoDup (map fst (domainScans this)) ->
        NoDup (map fst (domainScans this'))).
Proof.
  unfold Mem_createDomainScan. eexists. eexists. split; [reflexivity|].
  cbn [id scannedAt domains scanStatus domainScans]. rewrite Map_set_JsMap.
  repeat split.
  - apply get_set_same.
  - intros id' Hne. now apply get_set_other.
  - unfold Mem_getAllDomainScans, by_scannedAt_desc. cbn [domainScans].
    apply (Permutation_in _
             (Permutation_sym (Array_sort_perm scannedAt _))).
    apply values_set_in.
  - apply set_keys_nodup.
Qed.

Lemma first_with_key (t : N) (l : list DomainScan) :
  forall b1 x a1 b2 y a2,
    l = (b1 ++ x :: a1)%list -> l = (b2 ++ y :: a2)%list ->
    scannedAt x = t -> scannedAt y = t ->
    (forall s, In s b1 -> scannedAt s <> t) ->
    (forall s, In s b2 -> scannedAt s <> t) ->
    x = y.
Proof.
  induction l as [|z l IH]; intros b1 x a1 b2 y a2 H1 H2 Hx Hy Hb1 Hb2.
  - destruct b1; discriminate.
  - destruct b1 as [|z1 b1]; destruct b2 as [|z2 b2]; simpl in *.
    + congruence.
    + assert (z2 = x) by congruence. subst z2.
      destruct (Hb2 x (or_introl eq_refl) Hx).
    + assert (z1 = y) by congruence. subst z1.
      destruct (Hb1 y (or_introl eq_refl) Hy).
    + injection H1 as _ H1. injection H2 as _ H2.
      apply (IH b1 x a1 b2 y a2); auto.
Qed.

(** X6. When the date drawn for a new scan is later than the date of
    every stored scan, [getLatestDomainScan] answers the new scan right
    after [createDomainScan]. When it equals the date of the scan that
    was the latest (two scans stored within one tick of the clock) and
    the identifier is new, the older scan goes on being answered. *)
Theorem latest_after_create
  (insertScan : InsertDomainScan) (this : MemStorage) :
  let created := Mem_createDomainScan randomUUID Date_now insertScan this in
  ((forall s, In s (JsMap.values (domainScans this)) ->
              (scannedAt s < Date_now (drawn this))%N) ->
   exists scan, fst created = Return scan
                /\ Mem_getLatestDomainScan (snd created) = Some scan)
  /\ (forall older,
        Mem_getLatestDomainScan this = Some older ->
        scannedAt older = Date_now (drawn this) ->
        JsMap.get (domainScans this) (randomUUID (drawn this)) = None ->
        Mem_getLatestDomainScan (snd created) = Some older).
Proof.
  unfold Mem_createDomainScan. cbn zeta. cbn [fst snd].
  set (scan := {| id := randomUUID (drawn this);
                  domains := insert_domains insertScan;
                  scanStatus := match insert_status insertScan with
                                | Some s => s
                                | None => completed
                                end;
                  scannedAt := Date_now (drawn this) |}).
  set (this' := {| domainScans := Map_set (domainScans this)
                                    (randomUUID (drawn this)) scan;
                   drawn := Datatypes.S (drawn this) |}).
  assert (Hscans : domainScans this'
                   = JsMap.set (domainScans this) (randomUUID (drawn this)) scan)
    by apply Map_set_JsMap.
  split.
  - intros Hlater. exists scan. split; [reflexivity|].
    destruct (Mem_getLatestDomainScan this') as [r|] eqn:Hlatest.
    + destruct (latest_position _ _ Hlatest) as [b [a [Hvals [Hb Ha]]]].
      rewrite Hscans in Hvals.
      destruct (values_set_in (domainScans this) (randomUUID (drawn this)) scan)
        as [Hin Hfrom].
      assert (Hr : In r (JsMap.values
                           (JsMap.set (domainScans this)
                                      (randomUUID (drawn this)) scan)))
        by (rewrite Hvals; apply in_app_iff; right; now left).
      destruct (Hfrom r Hr) as [->|Hold]; [reflexivity|].
      exfalso. specialize (Hlater r Hold).
      rewrite Hvals in Hin. apply in_app_iff in Hin.
      destruct Hin as [Hin|[Heq|Hin]].
      * specialize (Hb scan Hin). simpl in Hb. lia.
      * subst r. simpl in Hlater. lia.
      * specialize (Ha scan Hin). simpl in Ha. lia.
    + apply latest_none_iff in Hlatest. rewrite Hscans in Hlatest.
      destruct (domainScans this) as [|[k v] m]; simpl in Hlatest;
        [discriminate|].
      destruct (String.eqb k (randomUUID (drawn this))); discriminate.
  - intros older Holder Hsame Hfresh.
    destruct (latest_position _ _ Holder) as [b [a [Hvals [Hb Ha]]]].
    assert (Hvals' : JsMap.values (domainScans this')
                     = (b ++ older :: (a ++ [scan]))%list).
    { rewrite Hscans, (set_fresh _ _ _ Hfresh). unfold JsMap.values in *.
      rewrite map_app, Hvals, <- app_assoc. reflexivity. }
    destruct (Mem_getLatestDomainScan this') as [r|] eqn:Hlatest.
    + destruct (latest_position _ _ Hlatest) as [b' [a' [Hr [Hb' Ha']]]].
      f_equal.
      assert (Hmax : scannedAt r = scannedAt older).
      { assert (In older (b' ++ r :: a')%list)
          by (rewrite <- Hr, Hvals'; apply in_app_iff; right; now left).
        assert (In r (b ++ older :: a ++ [scan])%list)
          by (rewrite <- Hvals', Hr; apply in_app_iff; right; now left).
        assert (scannedAt older <= scannedAt r)%N.
        { apply in_app_iff in H. destruct H as [H|[<-|H]];
            [specialize (Hb' _ H)|..|specialize (Ha' _ H)]; lia. }
        assert (scannedAt r <= scannedAt older)%N.
        { apply in_app_iff in H0. destruct H0 as [H0|[<-|H0]].
          - specialize (Hb _ H0). lia.
          - lia.
          - apply in_app_iff in H0. destruct H0 as [H0|[<-|[]]].
            + now apply Ha.
            + simpl. lia. }
        lia. }
      apply (first_with_key (scannedAt older)
               (JsMap.values (domainScans this')) b' r a' b older (a ++ [scan])%list);
        auto.
      * intros s Hs. specialize (Hb' s Hs). lia.
      * intros s Hs. specialize (Hb s Hs). lia.
    + apply latest_none_iff in Hlatest.
      assert (Hnil : JsMap.values (domainScans this') = []) by now rewrite Hlatest.
      rewrite Hvals' in Hnil. destruct b; discriminate.
Qed.

End CreateScan.

Lemma latest_after_create_witness :
  Mem_getLatestDomainScan
    (snd (Mem_createDomainScan sample_uuid sample_clock failedScanData
            (snd (Mem_createDomainScan sample_uuid sample_clock
                    {| insert_domains := []; insert_status := None |}
                    empty_store))))
  = Some {| id := "scan-1"; domains := []; scanStatus := failed;
            scannedAt := 1700000000001 |}.
Proof.
  destruct (proj1 (latest_after_create sample_uuid sample_clock failedScanData
                     (snd (Mem_createDomainScan sample_uuid sample_clock
                             {| insert_domains := []; insert_status := None |}
                             empty_store))))
    as [scan [Hscan Hlatest]].
  - intros s [<-|[]]. vm_compute. reflexivity.
  - rewrite Hlatest. f_equal. vm_compute in Hscan. now injection Hscan as <-.
Defined.

(** ** What a probe result says *)

Lemma or_else_nonempty (a b : string) : b <> "" -> Js.or_else a b <> "".
Proof. unfold Js.or_else. destruct a; simpl; [tauto|discriminate]. Qed.

Lemma try_urls_results
  (network : string -> N -> exchange) (timeout : N) (urls : list string)
  (w : WebsiteCheck) :
  snd (try_urls network timeout urls) = Return w ->
  w = connection_failed
  \/ exists url, In url (fst (try_urls network timeout urls))
                 /\ attempt network timeout url = Return w.
Proof.
  induction urls as [|url urls IH]; simpl.
  - intros [= <-]. now left.
  - destruct (attempt network timeout url) as [r|e] eqn:Hatt; simpl.
    + intros [= <-]. right. exists url. simpl. tauto.
    + destruct (try_urls network timeout urls) as [log res]. simpl in *.
      intros Hres. destruct (IH Hres) as [->|[u [Hin Hu]]]; [now left|].
      right. exists u. tauto.
Qed.

Lemma attempt_return_inv
  (network : string -> N -> exchange) (timeout : N) (url : string)
  (w : WebsiteCheck) :
  attempt network timeout url = Return w ->
  exists r txt,
    axios_get network url (timeout * 1000) = Return r
    /\ responseText r = Return txt
    /\ w = (if blocking_detected (Js.toLowerCase (finalUrl r url)) txt
            then blocked_result
            else if ((400 <=? response_status r)
                     && (response_status r <? 500))%N
                 then http_error (response_status r)
                 else working_result).
Proof.
  intros Hatt.
  destruct (axios_get network url (timeout * 1000)) as [r|e] eqn:Hget;
    [|unfold attempt in Hatt; rewrite Hget in Hatt; discriminate].
  destruct (responseText r) as [txt|e] eqn:Htxt.
  - exists r, txt. split; [reflexivity|split; [exact Htxt|]].
    rewrite (attempt_resolved network timeout url r txt Hget Htxt) in Hatt.
    now injection Hatt.
  - unfold attempt, classify in Hatt. rewrite Hget in Hatt. simpl in Hatt.
    rewrite Htxt in Hatt. discriminate.
Qed.

Lemma try_urls_returns
  (network : string -> N -> exchange) (timeout : N) (urls : list string) :
  exists w, snd (try_urls network timeout urls) = Return w.
Proof.
  induction urls as [|url urls [w IH]]; simpl; [eexists; reflexivity|].
  destruct (attempt network timeout url); [eexists; reflexivity|].
  destruct (try_urls network timeout urls). now exists w.
Qed.

Lemma probe_result_cases
  (network : string -> N -> exchange) (domain : js_value) (timeout : N)
  (w : WebsiteCheck) :
  checkWebsiteStatus network domain timeout = Return w ->
  (exists e, ToString domain = Throw e
             /\ w = {| check := st_broken;
                       error := Some (message_or e "Unknown error") |})
  \/ w = connection_failed
  \/ exists url, In url (requests network domain timeout)
                 /\ attempt network timeout url = Return w.
Proof.
  unfold checkWebsiteStatus, requests, probe.
  destruct (ToString domain) as [d|e].
  - set (urls := ["http://" ++ d; "https://" ++ d]).
    pose proof (try_urls_results network timeout urls w) as Hcases.
    destruct (try_urls_returns network timeout urls) as [w' Hret].
    destruct (try_urls network timeout urls) as [log res].
    cbn [fst snd] in *. subst res. cbn [try_catch].
    intros Heq. right. now apply Hcases.
  - cbn [fst snd]. intros [= <-]. left. exists e. tauto.
Qed.

(** X7. The prober reports working only for a URL it requested whose
    response had a status below 400 and carried no filter signature in
    its effective URL or body. *)
Theorem working_only_for_good_response
  (network : string -> N -> exchange) (domain : js_value) (timeout : N)
  (w : WebsiteCheck) :
  checkWebsiteStatus network domain timeout = Return w ->
  check w = st_working ->
  exists url r txt,
    In url (requests network domain timeout)
    /\ network url (timeout * 1000)%N = Responded r
    /\ (response_status r < 400)%N
    /\ responseText r = Return txt
    /\ ~ has_signature (Js.toLowerCase (finalUrl r url)) txt.
Proof.
  intros Hw Hworking.
  destruct (probe_result_cases _ _ _ _ Hw) as [[e [_ ->]]|[->|[url [Hin Hatt]]]];
    [discriminate|discriminate|].
  destruct (attempt_return_inv _ _ _ _ Hatt) as [r [txt [Hget [Htxt Hres]]]].
  exists url, r, txt.
  assert (Hnet : network url (timeout * 1000)%N = Responded r
                 /\ (response_status r < 500)%N).
  { unfold axios_get, validateStatus in Hget.
    destruct (network url (timeout * 1000)%N) as [e|r']; [discriminate|].
    destruct (response_status r' <? 500)%N eqn:Hlt; [|discriminate].
    injection Hget as ->. apply N.ltb_lt in Hlt. tauto. }
  destruct Hnet as [Hnet Hlt].
  destruct (blocking_detected (Js.toLowerCase (finalUrl r url)) txt) eqn:Hb;
    [subst w; discriminate|].
  destruct ((400 <=? response_status r) && (response_status r <? 500))%N
    eqn:Hc; [subst w; discriminate|].
  repeat split; try assumption.
  - apply andb_false_iff in Hc. rewrite N.leb_gt, N.ltb_ge in Hc. lia.
  - intros Hsig. apply blocking_detected_iff in Hsig. congruence.
Qed.

Lemma working_only_for_good_response_witness :
  exists url r txt,
    In url (requests (https_only 200 "<html>hello</html>")
                     (JString "example.org") 30)
    /\ https_only 200 "<html>hello</html>" url (30 * 1000)%N = Responded r
    /\ (response_status r < 400)%N
    /\ responseText r = Return txt
    /\ ~ has_signature (Js.toLowerCase (finalUrl r url)) txt.
Proof.
  apply (working_only_for_good_response
           (https_only 200 "<html>hello</html>") (JString "example.org") 30
           working_result); reflexivity.
Defined.

Lemma probe_error_cases
  (network : string -> N -> exchange) (domain : js_value) (timeout : N)
  (w : WebsiteCheck) :
  checkWebsiteStatus network domain timeout = Return w ->
  (check w = st_working /\ error w = None)
  \/ (check w = st_broken /\ exists msg, error w = Some msg /\ msg <> "").
Proof.
  intros Hw.
  destruct (probe_result_cases _ _ _ _ Hw) as [[e [_ ->]]|[->|[url [Hin Hatt]]]].
  - right. split; [reflexivity|]. eexists. split; [reflexivity|].
    unfold message_or. destruct (message e) as [m|]; [|discriminate].
    apply or_else_nonempty. discriminate.
  - right. split; [reflexivity|]. eexists. split; [reflexivity|discriminate].
  - destruct (attempt_return_inv _ _ _ _ Hatt) as [r [txt [_ [_ ->]]]].
    destruct (blocking_detected _ _).
    + right. split; [reflexivity|]. eexists. split; [reflexivity|discriminate].
    + destruct ((400 <=? response_status r) && (response_status r <? 500))%N.
      * right. split; [reflexivity|]. eexists. split; [reflexivity|discriminate].
      * now left.
Qed.

(** X8. A probe result carries an error message exactly when it is
    broken, and the message is never empty. *)
Theorem error_iff_broken
  (network : string -> N -> exchange) (domain : js_value) (timeout : N)
  (w : WebsiteCheck) :
  checkWebsiteStatus network domain timeout = Return w ->
  (check w = st_working /\ error w = None)
  \/ (check w = st_broken /\ exists msg, error w = Some msg /\ msg <> "").
Proof. apply probe_error_cases. Qed.

Lemma error_iff_broken_witness :
  (check (http_error 404) = st_working /\ error (http_error 404) = None)
  \/ (check (http_error 404) = st_broken
      /\ exists msg, error (http_error 404) = Some msg /\ msg <> "").
Proof.
  apply (error_iff_broken (always 404 "Not Found") (JString "example.org") 30).
  reflexivity.
Defined.

(** ** Scans from start to end *)

Lemma row_entry_fresh (cells : row) (e : DomainEntry) :
  row_entry cells = Some e -> fresh_entry e.
Proof.
  unfold row_entry.
  destruct (4 <=? List.length cells)%nat; [|discriminate].
  destruct (Js.truthy _ && Js.truthy _); [|discriminate].
  intros [= <-]. now split.
Qed.

Lemma fold_each_row_fresh_entries (rows : list row) :
  forall pe all,
    Forall fresh_entry all ->
    Forall fresh_entry (snd (fold_left each_row rows (pe, all))).
Proof.
  induction rows as [|r rows IH]; intros pe all Hall; simpl; [exact Hall|].
  destruct (row_entry r) as [e|] eqn:He; [|now apply IH].
  destruct (some_domain all (domain e)); simpl; [now apply IH|].
  apply IH. apply Forall_app. split; [exact Hall|].
  constructor; [|constructor]. now apply row_entry_fresh with (cells := r).
Qed.

Section ScanRuns.

Context {S : Type} {storage : IStorage S}.
Variable network : string -> N -> exchange.
Variable registry : nat -> string -> completion document.
Variable parse : InsertDomainScan -> completion InsertDomainScan.

Lemma scan_pages_fresh (fuel : nat) :
  forall page all found,
    scan_pages registry fuel page all = Return found ->
    Forall fresh_entry all -> Forall fresh_entry found.
Proof.
  induction fuel as [|fuel IH]; intros page all found; simpl.
  - intros [= <-]. tauto.
  - destruct (registry _ _) as [doc|e]; simpl; [|discriminate].
    destruct (extract_page (table_rows doc) all) as [pe all'] eqn:Hex.
    intros Hrun Hall. apply (IH _ _ _ Hrun).
    replace all' with (snd (extract_page (table_rows doc) all))
      by now rewrite Hex.
    now apply fold_each_row_fresh_entries.
Qed.

(** What the callback of the checks makes of a record that has not been
    probed. *)
Lemma check_entry_fresh (timeout : N) (e : DomainEntry) :
  fresh_entry e ->
  exists w c,
    checkWebsiteStatus network (JString (domain e)) timeout = Return w
    /\ check_entry network timeout e = Return c
    /\ domain c = domain e /\ status c = status e /\ owner c = owner e
    /\ age c = age e /\ hosts c = hosts e
    /\ websiteStatus c = of_check (check w)
    /\ websiteError c = error w.
Proof.
  intros [_ Herr].
  destruct (probe_returns network (JString (domain e)) timeout) as [w Hw].
  exists w. unfold check_entry. cbn [set_websiteStatus domain].
  rewrite Hw. cbn [bind try_catch].
  destruct (error w) as [msg|] eqn:Hmsg.
  - destruct (Js.truthy msg) eqn:Ht.
    + eexists. split; [reflexivity|]. split; [reflexivity|]. now simpl.
    + eexists. split; [reflexivity|]. split; [reflexivity|]. simpl.
      repeat split. destruct msg; [|discriminate].
      destruct (probe_error_cases network (JString (domain e)) timeout w Hw)
        as [[_ Hnone]|[_ [m [Hm Hne]]]]; congruence.
  - eexists. split; [reflexivity|]. split; [reflexivity|]. simpl.
    repeat split. exact Herr.
Qed.

End ScanRuns.

Section ScanOutcomes.

Context {S : Type} {storage : IStorage S}.
Variable network : string -> N -> exchange.
Variable registry : nat -> string -> completion document.
Variable parse : InsertDomainScan -> completion InsertDomainScan.

Lemma checks_of_fresh (timeout : N) (found : list DomainEntry) :
  Forall fresh_entry found ->
  exists stored,
    Promise_all (map (check_entry network timeout) found) = Return stored
    /\ Forall2 (probed_from network timeout) found stored.
Proof.
  induction 1 as [|e found He _ [stored [Hall Hrel]]]; simpl.
  - exists []. split; [reflexivity|constructor].
  - destruct (check_entry_fresh network timeout e He)
      as [w [c [Hw [Hc [H1 [H2 [H3 [H4 [H5 [H6 H7]]]]]]]]]].
    rewrite Hc, Hall. simpl. exists (c :: stored). split; [reflexivity|].
    constructor; [|exact Hrel].
    unfold probed_from. repeat split; try assumption. now exists w.
Qed.

(** The collection is empty after the pages exactly when it was empty
    before and no row of any page passed the guards. *)
Lemma scan_pages_empty_iff (fuel : nat) :
  forall page all found,
    (1 <= page)%N ->
    scan_pages registry fuel page all = Return found ->
    (found = [] <->
     all = []
     /\ forall k doc,
          (k < fuel)%nat ->
          registry (N.to_nat page - 1 + k) (targetUrl (page + N.of_nat k))
          = Return doc ->
          row_entries (table_rows doc) = []).
Proof.
  induction fuel as [|fuel IH]; intros page all found Hpage; simpl.
  - intros [= <-]. split; [intros ->; split; [reflexivity|intros; lia]|tauto].
  - destruct (registry (N.to_nat page - 1) (targetUrl page)) as [doc|e0] eqn:Hreq;
      simpl; [|discriminate].
    destruct (extract_page (table_rows doc) all) as [pe all'] eqn:Hex.
    intros Hrun. rewrite (IH (page + 1)%N all' found ltac:(lia) Hrun).
    assert (Hall' : all' = [] <-> all = [] /\ row_entries (table_rows doc) = []).
    { replace all' with (snd (extract_page (table_rows doc) all))
        by now rewrite Hex.
      unfold extract_page. split.
      - intros Hnil.
        destruct (fold_each_row_appends (table_rows doc) [] all) as [acc Hacc].
        rewrite Hacc in Hnil. simpl in Hnil.
        apply app_eq_nil in Hnil. destruct Hnil as [-> Hacc_nil].
        split; [reflexivity|].
        destruct (row_entries (table_rows doc)) as [|e l] eqn:Hrows;
          [reflexivity|].
        assert (Hin : In (domain e)
                         (map domain (snd (fold_left each_row (table_rows doc)
                                             ([], []))))).
        { apply fold_each_row_covers. left. rewrite Hrows. now left. }
        rewrite Hacc in Hin. simpl in Hin. rewrite Hacc_nil in Hin.
        destruct Hin.
      - intros [-> Hrows]. rewrite fold_each_row_known; [reflexivity|].
        rewrite Hrows. intros e []. }
    rewrite Hall'. split.
    + intros [[-> Hrows] Hrest]. split; [reflexivity|].
      intros k doc' Hk Hdoc'. destruct k as [|k].
      * rewrite Nat.add_0_r, N.add_0_r in Hdoc'. congruence.
      * apply (Hrest k doc'); [lia|].
        replace (N.to_nat (page + 1) - 1 + k)%nat
          with (N.to_nat page - 1 + Datatypes.S k)%nat by lia.
        replace (page + 1 + N.of_nat k)%N
          with (page + N.of_nat (Datatypes.S k))%N by lia.
        exact Hdoc'.
    + intros [-> Hrows]. split.
      * split; [reflexivity|]. apply (Hrows 0%nat doc); [lia|].
        now rewrite Nat.add_0_r, N.add_0_r.
      * intros k doc' Hk Hdoc'. apply (Hrows (Datatypes.S k) doc'); [lia|].
        replace (N.to_nat page - 1 + Datatypes.S k)%nat
          with (N.to_nat (page + 1) - 1 + k)%nat by lia.
        replace (page + N.of_nat (Datatypes.S k))%N
          with (page + 1 + N.of_nat k)%N by lia.
        exact Hdoc'.
Qed.

End ScanOutcomes.

Lemma collect_after_pages
  (network : string -> N -> exchange)
  (registry : nat -> string -> completion document)
  (timeout pages : N) (found : list DomainEntry) :
  scan_pages registry (N.to_nat pages) 1 [] = Return found ->
  exists checked,
    Forall2 (probed_from network timeout) found checked
    /\ collect network registry timeout pages
       = match found with
         | [] => doc <- registry (N.to_nat pages) baseUrl ;;
                 Return (map fallback_entry (uniqueDomains doc))
         | _ :: _ => Return checked
         end.
Proof.
  intros Hscan. unfold collect. rewrite Hscan. cbn [bind].
  destruct (checks_of_fresh network timeout found) as [checked [Hall Hrel]].
  { apply (scan_pages_fresh registry _ _ _ _ Hscan). constructor. }
  exists checked. split; [exact Hrel|]. rewrite Hall. cbn [bind].
  inversion Hrel; subst; reflexivity.
Qed.

(** X9. When the pages yield records, every stored record is the found
    record, in the same order, with the outcome of its own probe written
    on it: the registry fields are untouched, the status is that of the
    probe of its domain and the error is the error of that probe. *)
Theorem stored_records_probed
  (network : string -> N -> exchange)
  (registry : nat -> string -> completion document)
  (timeout pages : N) (found : list DomainEntry) :
  scan_pages registry (N.to_nat pages) 1 [] = Return found ->
  found <> [] ->
  exists stored,
    collect network registry timeout pages = Return stored
    /\ Forall2 (probed_from network timeout) found stored.
Proof.
  intros Hscan Hne.
  destruct (collect_after_pages network registry timeout pages found Hscan)
    as [checked [Hrel Hcollect]].
  exists checked. split; [|exact Hrel].
  rewrite Hcollect. destruct found; [congruence|reflexivity].
Qed.

Lemma stored_records_probed_witness :
  exists stored,
    collect (https_only 200 "<html>hello</html>")
      (same_page {| table_rows := [row_example_org; row_mooo_com];
                    anchors := [] |}) 30 1
    = Return stored
    /\ Forall2 (probed_from (https_only 200 "<html>hello</html>") 30)
         [ {| domain := "example.org"; status := "public"; owner := "alice";
              age := "3 years"; hosts := Finite 12;
              websiteStatus := unchecked; websiteError := None |};
           {| domain := "mooo.com"; status := "public"; owner := "josh";
              age := "7301 days ago"; hosts := Finite 4093;
              websiteStatus := unchecked; websiteError := None |} ]
         stored.
Proof.
  apply stored_records_probed; [reflexivity|discriminate].
Defined.

(** X10. The fallback is used exactly when no row of any requested page
    passed the guards: then the stored records are the fallback records
    of one more request to the base URL. As soon as one row of one page
    passed, no such request is made and the stored records are the
    probed table records. *)
Theorem fallback_iff_no_rows
  (network : string -> N -> exchange)
  (registry : nat -> string -> completion document)
  (timeout pages : N) (stored : list DomainEntry) :
  collect network registry timeout pages = Return stored ->
  ((forall k doc,
      (N.of_nat k < pages)%N ->
      registry k (targetUrl (N.of_nat (Datatypes.S k))) = Return doc ->
      row_entries (table_rows doc) = []) ->
   exists doc, registry (N.to_nat pages) baseUrl = Return doc
               /\ stored = map fallback_entry (uniqueDomains doc))
  /\ ((exists k doc,
         (N.of_nat k < pages)%N
         /\ registry k (targetUrl (N.of_nat (Datatypes.S k))) = Return doc
         /\ row_entries (table_rows doc) <> []) ->
      exists found,
        scan_pages registry (N.to_nat pages) 1 [] = Return found
        /\ found <> []
        /\ Forall2 (probed_from network timeout) found stored).
Proof.
  intros Hcollect.
  destruct (scan_pages registry (N.to_nat pages) 1 []) as [found|e] eqn:Hscan;
    [|unfold collect in Hcollect; rewrite Hscan in Hcollect; discriminate].
  destruct (collect_after_pages network registry timeout pages found Hscan)
    as [checked [Hrel Hrun]].
  rewrite Hcollect in Hrun.
  pose proof (scan_pages_empty_iff registry (N.to_nat pages) 1 [] found
                ltac:(lia) Hscan) as Hempty.
  assert (Hidx : forall k, (N.to_nat 1 - 1 + k)%nat = k) by (intros; simpl; lia).
  assert (Hpg : forall k, (1 + N.of_nat k)%N = N.of_nat (Datatypes.S k))
    by (intros; lia).
  split.
  - intros Hnone.
    assert (found = []) as ->.
    { apply Hempty. split; [reflexivity|]. intros k doc Hk Hdoc.
      rewrite Hidx, Hpg in Hdoc. apply (Hnone k doc); [lia|exact Hdoc]. }
    destruct (registry (N.to_nat pages) baseUrl) as [doc|e]; simpl in Hrun;
      [|discriminate].
    exists doc. split; [reflexivity|congruence].
  - intros [k [doc [Hk [Hdoc Hrows]]]]. exists found.
    assert (Hne : found <> []).
    { intros Hnil. apply Hempty in Hnil. destruct Hnil as [_ Hall].
      apply Hrows, (Hall k doc); [lia|]. now rewrite Hidx, Hpg. }
    split; [reflexivity|]. split; [exact Hne|].
    destruct found; [congruence|]. injection Hrun as ->. exact Hrel.
Qed.

Lemma fallback_iff_no_rows_witness :
  exists doc,
    same_page (links_only ["example.com"]) (N.to_nat 1) baseUrl = Return doc
    /\ [fallback_entry "example.com"] = map fallback_entry (uniqueDomains doc).
Proof.
  apply (proj1 (fallback_iff_no_rows (always 200 "ok")
                  (same_page (links_only ["example.com"])) 30 1
                  [fallback_entry "example.com"] eq_refl)).
  intros k doc _ [= <-]. reflexivity.
Defined.

(** ** More on the rows of a page *)

Lemma fold_each_row_first (rows : list row) :
  forall pe all,
  exists accepted,
    fold_left each_row rows (pe, all)
    = ((pe ++ accepted)%list, (all ++ accepted)%list)
    /\ forall e, In e accepted ->
         exists l1 l2,
           row_entries rows = (l1 ++ e :: l2)%list
           /\ ~ In (domain e) (map domain l1)
           /\ ~ In (domain e) (map domain all).
Proof.
  induction rows as [|r rows IH]; intros pe all.
  - exists []. simpl. rewrite !app_nil_r. split; [reflexivity|intros e []].
  - cbn [fold_left]. unfold each_row at 2. unfold row_entries. cbn [flat_map].
    fold (row_entries rows).
    destruct (row_entry r) as [e0|] eqn:He0.
    + destruct (some_domain all (domain e0)) eqn:Hs; cbn [negb].
      * destruct (IH pe all) as [acc [Hacc Hfirst]].
        exists acc. split; [exact Hacc|].
        intros e He. destruct (Hfirst e He) as [l1 [l2 [Hrows [Hl1 Hall]]]].
        exists (e0 :: l1), l2. rewrite Hrows. split; [reflexivity|].
        split; [|exact Hall]. simpl. intros [Heq|Hin]; [|tauto].
        apply some_domain_iff in Hs. congruence.
      * destruct (IH (pe ++ [e0])%list (all ++ [e0])%list)
          as [acc [Hacc Hfirst]].
        exists (e0 :: acc). rewrite Hacc, <- !app_assoc.
        split; [reflexivity|].
        apply some_domain_false_iff in Hs.
        intros e [<-|He].
        -- exists [], (row_entries rows). simpl. tauto.
        -- destruct (Hfirst e He) as [l1 [l2 [Hrows [Hl1 Hall]]]].
           rewrite map_app, in_app_iff in Hall. simpl in Hall.
           exists (e0 :: l1), l2. rewrite Hrows. split; [reflexivity|].
           simpl. tauto.
    + destruct (IH pe all) as [acc [Hacc Hfirst]].
      exists acc. split; [exact Hacc|exact Hfirst].
Qed.

(** X13. After the rows of a page, the collection holds exactly the
    domains it held and the domains of the rows that passed the guards.
    A record the page contributes is the first one of the page with its
    domain, and its domain was not in the collection. *)
Theorem page_domains_first_wins (rows : list row) (all : list DomainEntry) :
  (forall d,
     In d (map domain (snd (extract_page rows all)))
     <-> In d (map domain all) \/ In d (map domain (row_entries rows)))
  /\ (forall e,
        In e (fst (extract_page rows all)) ->
        exists l1 l2,
          row_entries rows = (l1 ++ e :: l2)%list
          /\ ~ In (domain e) (map domain l1)
          /\ ~ In (domain e) (map domain all)).
Proof.
  unfold extract_page.
  destruct (fold_each_row_first rows [] all) as [acc [Hacc Hfirst]].
  split.
  - intros d. split.
    + rewrite Hacc. simpl. rewrite map_app, in_app_iff.
      intros [Hin|Hin]; [now left|right].
      apply in_map_iff in Hin. destruct Hin as [e [<- He]].
      destruct (Hfirst e He) as [l1 [l2 [Hrows _]]].
      rewrite Hrows, map_app, in_app_iff. right. simpl. now left.
    + intros [Hin|Hin].
      * apply in_map_iff in Hin. destruct Hin as [e [<- He]].
        apply fold_each_row_covers. right. now apply in_map.
      * apply in_map_iff in Hin. destruct Hin as [e [<- He]].
        apply fold_each_row_covers. now left.
  - rewrite Hacc. simpl. exact Hfirst.
Qed.

Lemma trimStart_starts (s : string) :
  match Js.trimStart s with
  | EmptyString => True
  | String c _ => Js.is_space c = false
  end.
Proof.
  induction s as [|c s IH]; simpl; [exact I|].
  destruct (Js.is_space c) eqn:Hc; [exact IH|exact Hc].
Qed.

Lemma trimEnd_idem (s : string) : Js.trimEnd (Js.trimEnd s) = Js.trimEnd s.
Proof.
  induction s as [|c s IH]; simpl; [reflexivity|].
  destruct (Js.trimEnd s) as [|d u] eqn:Hu.
  - destruct (Js.is_space c) eqn:Hc; simpl; [reflexivity|now rewrite Hc].
  - cbn [Js.trimEnd] in *. now rewrite IH.
Qed.

Lemma trimEnd_first (c : ascii) (s : string) :
  Js.is_space c = false ->
  exists rest, Js.trimEnd (String c s) = String c rest.
Proof.
  intros Hc. simpl. destruct (Js.trimEnd s); [rewrite Hc|]; eexists; reflexivity.
Qed.

(** [trim] leaves a trimmed string as it is. *)
Lemma trim_idem (s : string) : Js.trim (Js.trim s) = Js.trim s.
Proof.
  unfold Js.trim. pose proof (trimStart_starts s) as Hstart.
  destruct (Js.trimStart s) as [|c t] eqn:Ht; [reflexivity|].
  destruct (trimEnd_first c t Hstart) as [rest Hrest].
  rewrite Hrest. cbn [Js.trimStart]. rewrite Hstart, <- Hrest.
  apply trimEnd_idem.
Qed.

Lemma hostCount_not_NaN (c : cell) : hostCount_of c <> NaN.
Proof.
  unfold hostCount_of.
  destruct (0 <? List.length (cell_spans c))%nat; [|discriminate].
  destruct (hostMatch (Js.concat_text (cell_spans c))) as [digits|] eqn:Hm;
    [|discriminate].
  pose proof (hostMatch_leftmost (Js.concat_text (cell_spans c))) as Hl.
  rewrite Hm in Hl.
  destruct (leftmost_match_digits _ _ Hl digits eq_refl) as [Hne Hds].
  rewrite (parseInt_digits digits Hne Hds). unfold to_double.
  destruct (_ <? _)%N; [discriminate|].
  cbv zeta. destruct (_ <=? _)%N; discriminate.
Qed.

(** X14. A record that a row yields has a domain name and a status that
    are not empty and carry no white space at either end; its owner and
    age are trimmed as well; its host count is a number, never NaN; it is
    not probed and has no error; the row had at least 4 cells. *)
Theorem row_entry_well_formed (cells : row) (e : DomainEntry) :
  row_entry cells = Some e ->
  domain e <> "" /\ status e <> ""
  /\ Js.trim (domain e) = domain e /\ Js.trim (status e) = status e
  /\ Js.trim (owner e) = owner e /\ Js.trim (age e) = age e
  /\ hosts e <> NaN
  /\ websiteStatus e = unchecked /\ websiteError e = None
  /\ (4 <= List.length cells)%nat.
Proof.
  unfold row_entry.
  destruct (4 <=? List.length cells)%nat eqn:Hlen; [|discriminate].
  destruct (Js.truthy (Js.trim (first_text (cell_links (eq_ cells 0)))))
    eqn:Hd; [|discriminate].
  destruct (Js.truthy (Js.trim (cell_text (eq_ cells 1)))) eqn:Hs;
    [|discriminate].
  simpl. intros [= <-]. simpl.
  apply truthy_iff in Hd. apply truthy_iff in Hs. apply Nat.leb_le in Hlen.
  repeat split; try assumption; try apply trim_idem.
  - unfold Js.or_else.
    destruct (Js.truthy _); apply trim_idem.
  - apply hostCount_not_NaN.
Qed.

Lemma row_entry_well_formed_witness :
  Js.trim "mooo.com" = "mooo.com" /\ Finite 4093 <> NaN.
Proof.
  pose proof (row_entry_well_formed row_mooo_com _ eq_refl) as H.
  simpl in H. tauto.
Defined.

(** ** More on the fallback *)

Lemma Set_from_acc_in (domains : list string) :
  forall seen d,
    In d (fold_left
            (fun seen d => if existsb (String.eqb d) seen then seen
                           else (seen ++ [d])%list)
            domains seen)
    <-> In d seen \/ In d domains.
Proof.
  induction domains as [|x domains IH]; intros seen d; simpl; [tauto|].
  rewrite IH. destruct (existsb (String.eqb x) seen) eqn:Hex.
  - apply existsb_exists in Hex. destruct Hex as [y [Hy Heq]].
    apply String.eqb_eq in Heq. subst y.
    split; [tauto|]. intros [H|[<-|H]]; tauto.
  - rewrite in_app_iff. simpl. tauto.
Qed.

Lemma Set_from_in (domains : list string) (d : string) :
  In d (Set_from domains) <-> In d domains.
Proof. unfold Set_from. rewrite Set_from_acc_in. simpl. tauto. Qed.

Lemma every_weaken (p q : ascii -> bool) (s : string) :
  (forall c, p c = true -> q c = true) -> every p s -> every q s.
Proof.
  intros Hpq. induction s as [|c s IH]; simpl; [tauto|].
  intros [Hc Hs]. split; [now apply Hpq|now apply IH].
Qed.

Lemma every_app (p : ascii -> bool) (a b : string) :
  every p (a ++ b) <-> every p a /\ every p b.
Proof. induction a as [|c a IH]; simpl; [tauto|]. rewrite IH. tauto. Qed.

Lemma is_hostname_chars (s : string) : is_hostname s -> every host_char s.
Proof.
  intros [a [b [-> [_ [Ha [_ Hb]]]]]].
  apply every_app. split; [exact Ha|]. simpl. split; [reflexivity|].
  apply (every_weaken Js.is_letter); [|exact Hb].
  intros c Hc. unfold host_char. now rewrite Hc.
Qed.

Lemma hostname_no_space (s : string) : is_hostname s -> ~ occurs_in " " s.
Proof.
  intros Hs [pre [post ->]]. apply is_hostname_chars in Hs.
  apply every_app in Hs. destruct Hs as [_ Hs]. simpl in Hs.
  destruct Hs as [Hsp _]. discriminate.
Qed.

Lemma hostname_has_dot (s : string) : is_hostname s -> occurs_in "." s.
Proof. intros [a [b [-> _]]]. now exists a, b. Qed.

Lemma is_hostname_iff (s : string) : hostname_test s = true <-> is_hostname s.
Proof. apply hostname_test_iff. Qed.

(** The first three tests on a link text follow from the pattern. *)
Lemma link_candidate_iff (s : string) :
  link_candidate s = true <-> is_hostname s.
Proof.
  unfold link_candidate. rewrite !andb_true_iff, negb_true_iff,
    is_hostname_iff, includes_iff, includes_false_iff.
  split; [intros [_ Hs]; exact Hs|].
  intros Hs. repeat split.
  - destruct Hs as [a [b [-> [Ha _]]]]. destruct a; [congruence|reflexivity].
  - now apply hostname_has_dot.
  - now apply hostname_no_space.
  - exact Hs.
Qed.

Lemma keep_domain_iff (d : string) :
  is_hostname d ->
  (keep_domain d = true <->
   ~ occurs_in "freedns" d /\ ~ occurs_in "afraid" d
   /\ (Js.startsWith d "www." = true -> is_hostname (Js.substring_from 4 d))).
Proof.
  intros Hd. unfold keep_domain.
  assert (Htruthy : Js.truthy d = true).
  { destruct Hd as [a [b [-> [Ha _]]]]. destruct a; [congruence|reflexivity]. }
  assert (Hlen : (String.length d =? 0)%nat = false).
  { destruct d; [discriminate|reflexivity]. }
  rewrite Htruthy, Hlen. cbn [negb orb].
  rewrite <- !includes_false_iff.
  destruct (Js.includes d "freedns"); cbn [orb];
    [split; [discriminate|intros [H _]; discriminate]|].
  destruct (Js.includes d "afraid"); cbn [orb];
    [split; [discriminate|intros [_ [H _]]; discriminate]|].
  destruct (Js.startsWith d "www.") eqn:Hwww; rewrite is_hostname_iff.
  - split; [intros H; repeat split; auto|intros [_ [_ H]]; auto].
  - split; [intros _; repeat split; discriminate|intros _; exact Hd].
Qed.

(** X15. The fallback emits a name exactly when it is the trimmed text
    of a link, matches the host name pattern, contains neither "freedns"
    nor "afraid", and, when it starts with "www.", still matches the
    pattern without that prefix. Every emitted name occurs once. *)
Theorem fallback_domains (doc : document) (d : string) :
  (In d (uniqueDomains doc) <->
   In d (map Js.trim (anchors doc))
   /\ is_hostname d
   /\ ~ occurs_in "freedns" d /\ ~ occurs_in "afraid" d
   /\ (Js.startsWith d "www." = true -> is_hostname (Js.substring_from 4 d)))
  /\ NoDup (uniqueDomains doc).
Proof.
  split; [|apply uniqueDomains_nodup].
  unfold uniqueDomains. rewrite filter_In, Set_from_in, filter_In,
    link_candidate_iff.
  split.
  - intros [[Hin Hhost] Hkeep]. apply (keep_domain_iff d Hhost) in Hkeep. tauto.
  - intros [Hin [Hhost Hrest]]. split; [tauto|]. now apply keep_domain_iff.
Qed.

(** ** Page addresses *)

Lemma append_empty_r (s : string) : s ++ "" = s.
Proof. induction s as [|c s IH]; simpl; [reflexivity|now rewrite IH]. Qed.

Lemma append_cancel (s a b : string) : s ++ a = s ++ b -> a = b.
Proof.
  induction s as [|c s IH]; simpl; [tauto|]. intros [= H]. now apply IH.
Qed.

Lemma decimal_injective (p q : N) : Js.decimal p = Js.decimal q -> p = q.
Proof.
  intros H. rewrite <- (decimal_value_decimal p), <- (decimal_value_decimal q).
  now rewrite H.
Qed.

(** X16. Page 1 is requested at the base address, every other page at
    the base address with its number as the [page] parameter, and no two
    pages share an address. *)
Theorem targetUrl_injective (p q : N) :
  targetUrl 1 = baseUrl
  /\ (p <> 1%N -> targetUrl p = baseUrl ++ "?page=" ++ Js.decimal p)
  /\ (targetUrl p = targetUrl q -> p = q).
Proof.
  split; [reflexivity|]. split.
  - intros Hp. unfold targetUrl. apply N.eqb_neq in Hp. now rewrite Hp.
  - unfold targetUrl.
    destruct (p =? 1)%N eqn:Hp; destruct (q =? 1)%N eqn:Hq.
    + apply N.eqb_eq in Hp. apply N.eqb_eq in Hq. congruence.
    + intros H. rewrite <- (append_empty_r baseUrl) in H at 1.
      apply append_cancel in H. discriminate.
    + intros H. rewrite <- (append_empty_r baseUrl) in H at 2.
      apply append_cancel in H. discriminate.
    + intros H. apply append_cancel in H. apply (append_cancel "?page=") in H.
      now apply decimal_injective.
Qed.

(** ** The test route *)


(** A domain without a primitive value: the log line throws and the
    route answers 500 with the message of the [TypeError]. *)
Example check_domain_unprintable :
  check_domain (always 200 "ok")
    (Some (DomainValue
             (Throw (Error "Cannot convert object to primitive value"))))
  = CheckFailure500 (Some "Cannot convert object to primitive value").
Proof. reflexivity. Qed.

Example check_domain_examples :
  check_domain (always 404 "Not Found") (Some (DomainString "example.org"))
  = Checked (DomainString "example.org") st_broken (Some "HTTP 404")
  /\ check_domain (always 404 "Not Found") (Some (DomainString ""))
     = BadRequest400 "Domain is required"
  /\ check_domain (always 404 "Not Found") (Some NoDomain)
     = BadRequest400 "Domain is required".
Proof. repeat split. Qed.

(** ** The filter of the client *)

Lemma toLowerCase_app (a b : string) :
  Js.toLowerCase (a ++ b) = Js.toLowerCase a ++ Js.toLowerCase b.
Proof. induction a as [|c a IH]; simpl; [reflexivity|now rewrite IH]. Qed.

Lemma lower_char_idem (c : ascii) :
  Js.lower_char (Js.lower_char c) = Js.lower_char c.
Proof.
  unfold Js.lower_char.
  destruct (Js.is_upper c || Js.is_upper_latin1 c) eqn:Hu; [|now rewrite Hu].
  replace (Js.is_upper (ascii_of_N (Js.code c + 32))
           || Js.is_upper_latin1 (ascii_of_N (Js.code c + 32)))
    with false; [reflexivity|].
  symmetry.
  unfold Js.is_upper, Js.is_upper_latin1, Js.between, Js.code in *.
  rewrite !orb_true_iff, !andb_true_iff, !N.leb_le in Hu.
  rewrite N_ascii_embedding by lia.
  rewrite !orb_false_iff, !andb_false_iff, !N.leb_gt. lia.
Qed.

Lemma toLowerCase_idem (s : string) :
  Js.toLowerCase (Js.toLowerCase s) = Js.toLowerCase s.
Proof.
  induction s as [|c s IH]; simpl; [reflexivity|].
  now rewrite lower_char_idem, IH.
Qed.

Lemma occurs_in_trans (a b c : string) :
  occurs_in a b -> occurs_in b c -> occurs_in a c.
Proof.
  intros [p1 [q1 ->]] [p2 [q2 ->]]. exists (p2 ++ p1), (q1 ++ q2).
  now rewrite !append_assoc.
Qed.

Lemma occurs_in_lower (a b : string) :
  occurs_in a b -> occurs_in (Js.toLowerCase a) (Js.toLowerCase b).
Proof.
  intros [p [q ->]]. exists (Js.toLowerCase p), (Js.toLowerCase q).
  now rewrite !toLowerCase_app.
Qed.

Lemma includes_empty (s : string) : Js.includes s "" = true.
Proof. destruct s; reflexivity. Qed.

Lemma filter_match_narrows (shorter longer : string) (f : website_filter)
  (entry : DomainEntry) :
  occurs_in shorter longer ->
  filter_match longer f entry = true -> filter_match shorter f entry = true.
Proof.
  intros Hsub. apply occurs_in_lower in Hsub. unfold filter_match.
  rewrite !andb_true_iff, !orb_true_iff, !includes_iff.
  intros [Hsearch Hweb]. split; [|exact Hweb].
  destruct Hsearch as [[H|H]|H];
    [left; left|left; right|right];
    now apply (occurs_in_trans _ _ _ Hsub).
Qed.

(** X18. The search of the client. With an empty search term and the
    filter "all" every record is listed. Upper and lower case in the term
    make no difference. Under "all" a record is listed exactly when its
    lower-cased domain, status or owner contains the lower-cased term;
    under the other filters a listed record contains it as well. *)
Theorem search_lists
  (searchTerm : string) (f : website_filter) (domains : list DomainEntry) :
  filtered "" filter_all domains = domains
  /\ filtered (Js.toLowerCase searchTerm) f domains
     = filtered searchTerm f domains
  /\ (forall entry,
        In entry (filtered searchTerm filter_all domains) <->
        In entry domains
        /\ (occurs_in (Js.toLowerCase searchTerm) (Js.toLowerCase (domain entry))
            \/ occurs_in (Js.toLowerCase searchTerm)
                         (Js.toLowerCase (status entry))
            \/ occurs_in (Js.toLowerCase searchTerm)
                         (Js.toLowerCase (owner entry))))
  /\ (forall entry,
        In entry (filtered searchTerm f domains) ->
        In entry (filtered searchTerm filter_all domains)).
Proof.
  unfold filtered. split; [|split; [|split]].
  - induction domains as [|e l IH]; simpl; [reflexivity|].
    unfold filter_match at 1. simpl. rewrite includes_empty. simpl.
    now rewrite IH.
  - apply filter_ext. intros e. unfold filter_match.
    now rewrite toLowerCase_idem.
  - intros entry. rewrite filter_In. unfold filter_match.
    rewrite andb_true_iff, !orb_true_iff, !includes_iff. tauto.
  - intros entry. rewrite !filter_In. unfold filter_match.
    rewrite !andb_true_iff. tauto.
Qed.

(** A capital letter with an accent in the term finds the small letter in
    the record. *)
Example search_accent :
  let owner_name := "Jos" ++ String "233" "" in
  let term := "JOS" ++ String "201" "" in
  let entry := {| domain := "example.org"; status := "public";
                  owner := owner_name; age := "1 day ago";
                  hosts := Finite 1; websiteStatus := working;
                  websiteError := None |} in
  filtered term filter_all [entry] = [entry].
Proof. reflexivity. Qed.

(** X19. The website filter of the client. Under "working" every listed
    record is working and under "broken" every listed record is broken,
    so a record that was never probed is listed under "all" only. *)
Theorem website_filter_shows
  (searchTerm : string) (domains : list DomainEntry) (entry : DomainEntry) :
  (In entry (filtered searchTerm filter_working domains) ->
   websiteStatus entry = working)
  /\ (In entry (filtered searchTerm filter_broken domains) ->
      websiteStatus entry = broken)
  /\ (websiteStatus entry = unchecked \/ websiteStatus entry = checking ->
      ~ In entry (filtered searchTerm filter_working domains)
      /\ ~ In entry (filtered searchTerm filter_broken domains))
  /\ (In entry domains ->
      In entry (filtered "" filter_all domains)).
Proof.
  assert (Hw : In entry (filtered searchTerm filter_working domains) ->
               websiteStatus entry = working).
  { unfold filtered. intros Hin. apply filter_In in Hin.
    destruct Hin as [_ Hm]. unfold filter_match in Hm.
    apply andb_true_iff in Hm. destruct Hm as [_ Hm].
    now destruct (websiteStatus entry). }
  assert (Hb : In entry (filtered searchTerm filter_broken domains) ->
               websiteStatus entry = broken).
  { unfold filtered. intros Hin. apply filter_In in Hin.
    destruct Hin as [_ Hm]. unfold filter_match in Hm.
    apply andb_true_iff in Hm. destruct Hm as [_ Hm].
    now destruct (websiteStatus entry). }
  repeat split; try assumption.
  - intros Hin. apply Hw in Hin. destruct H; congruence.
  - intros Hin. apply Hb in Hin. destruct H; congruence.
  - intros Hin. unfold filtered. apply filter_In. split; [exact Hin|].
    unfold filter_match. now rewrite includes_empty.
Qed.

(** ** The counts of the success message *)

Lemma count_probed (network : string -> N -> exchange) (timeout : N)
  (found stored : list DomainEntry) :
  Forall2 (probed_from network timeout) found stored ->
  (count_status working stored + count_status broken stored
   = List.length stored)%nat.
Proof.
  unfold count_status.
  induction 1 as [|e c found stored Hp _ IH]; simpl; [reflexivity|].
  destruct Hp as [_ [_ [_ [_ [_ [w [_ [Hst _]]]]]]]].
  rewrite Hst. destruct (check w); simpl; lia.
Qed.

Lemma count_fallback (l : list string) :
  count_status working (map fallback_entry l) = 0%nat
  /\ count_status broken (map fallback_entry l) = 0%nat.
Proof.
  unfold count_status. induction l as [|d l [IHw IHb]]; simpl; split;
    assumption || reflexivity.
Qed.

(** X20. When the scan route answers success, its message reads
    "Successfully extracted <n> domains from <pages> page(s) of FreeDNS
    registry. Website checks: <w> working, <b> broken.", where n is the
    number of collected records and w and b count the working and the
    broken ones among them. For records from the registry table
    w + b = n; for records from the fallback w = b = 0, however many
    there are. *)
Theorem message_counts
  {S : Type} {storage : IStorage S}
  (network : string -> N -> exchange)
  (registry : nat -> string -> completion document)
  (parse : InsertDomainScan -> completion InsertDomainScan)
  (timeout pages : N) (store store' : S) (scan : DomainScan) (msg : string) :
  scan_domains network registry parse timeout pages store
  = (Success scan msg, store') ->
  exists stored found,
    collect network registry timeout pages = Return stored
    /\ scan_pages registry (N.to_nat pages) 1 [] = Return found
    /\ msg = "Successfully extracted "
             ++ Js.decimal (N.of_nat (List.length stored))
             ++ " domains from " ++ Js.decimal pages
             ++ " page(s) of FreeDNS registry. Website checks: "
             ++ Js.decimal (N.of_nat (count_status working stored))
             ++ " working, "
             ++ Js.decimal (N.of_nat (count_status broken stored))
             ++ " broken."
    /\ (found <> [] ->
        (count_status working stored + count_status broken stored
         = List.length stored)%nat)
    /\ (found = [] ->
        count_status working stored = 0%nat
        /\ count_status broken stored = 0%nat).
Proof.
  unfold scan_domains, scan_try.
  destruct (collect network registry timeout pages) as [stored|e] eqn:Hcollect;
    [|discriminate].
  destruct (parse _) as [validated|e]; [|discriminate].
  destruct (createDomainScan validated store) as [[saved|e] store1];
    [|discriminate].
  intros [= <- <- <-].
  destruct (scan_pages registry (N.to_nat pages) 1 []) as [found|e] eqn:Hscan;
    [|unfold collect in Hcollect; rewrite Hscan in Hcollect; discriminate].
  destruct (collect_after_pages network registry timeout pages found Hscan)
    as [checked [Hrel Hrun]].
  rewrite Hcollect in Hrun.
  exists stored, found. split; [reflexivity|]. split; [reflexivity|].
  split; [reflexivity|]. split.
  - intros Hne. destruct found as [|e found]; [congruence|].
    injection Hrun as ->.
    now apply (count_probed network timeout (e :: found)).
  - intros ->.
    destruct (registry (N.to_nat pages) baseUrl) as [doc|e]; simpl in Hrun;
      [|discriminate].
    injection Hrun as ->. apply count_fallback.
Qed.

(** A scan of two table rows, one working and one broken, and a scan
    that falls back to two links. *)
Lemma message_counts_witness :
  (exists stored found,
     collect (fun url _ => if Js.includes url "mooo" then page 404 "Not Found"
                           else page 200 "<html>hello</html>")
       (same_page {| table_rows := [row_example_org; row_mooo_com];
                     anchors := [] |}) 30 1 = Return stored
     /\ scan_pages (same_page {| table_rows := [row_example_org; row_mooo_com];
                                 anchors := [] |}) (N.to_nat 1) 1 []
        = Return found
     /\ "Successfully extracted 2 domains from 1 page(s) of FreeDNS registry. Website checks: 1 working, 1 broken."
        = "Successfully extracted "
          ++ Js.decimal (N.of_nat (List.length stored))
          ++ " domains from " ++ Js.decimal 1
          ++ " page(s) of FreeDNS registry. Website checks: "
          ++ Js.decimal (N.of_nat (count_status working stored))
          ++ " working, "
          ++ Js.decimal (N.of_nat (count_status broken stored))
          ++ " broken."
     /\ (found <> [] ->
         (count_status working stored + count_status broken stored
          = List.length stored)%nat)
     /\ (found = [] ->
         count_status working stored = 0%nat
         /\ count_status broken stored = 0%nat))
  /\ (exists stored found,
        collect (always 200 "ok")
          (same_page (links_only ["example.com"; "mooo.com"])) 30 1
        = Return stored
        /\ scan_pages (same_page (links_only ["example.com"; "mooo.com"]))
             (N.to_nat 1) 1 [] = Return found
        /\ "Successfully extracted 2 domains from 1 page(s) of FreeDNS registry. Website checks: 0 working, 0 broken."
           = "Successfully extracted "
             ++ Js.decimal (N.of_nat (List.length stored))
             ++ " domains from " ++ Js.decimal 1
             ++ " page(s) of FreeDNS registry. Website checks: "
             ++ Js.decimal (N.of_nat (count_status working stored))
             ++ " working, "
             ++ Js.decimal (N.of_nat (count_status broken stored))
             ++ " broken."
        /\ (found <> [] ->
            (count_status working stored + count_status broken stored
             = List.length stored)%nat)
        /\ (found = [] ->
            count_status working stored = 0%nat
            /\ count_status broken stored = 0%nat)).
Proof.
  split.
  - eapply (@message_counts MemStorage sample_storage _ _ no_validation
              30 1 empty_store).
    reflexivity.
  - eapply (@message_counts MemStorage sample_storage _ _ no_validation
              30 1 empty_store).
    reflexivity.
Defined.

(** ** Non-breaking spaces *)

(** The character that [&nbsp;] stands for is white space for [trim] and
    for [\s]. *)
Example nbsp_is_space :
  let nbsp := String "160" "" in
  Js.trim (nbsp ++ "public" ++ nbsp) = "public"
  /\ hostMatch ("(12" ++ nbsp ++ "hosts in use)") = Some "12"
  /\ option_map (fun e => (status e, hosts e))
       (row_entry
          [ {| cell_text := "example.org"; cell_links := ["example.org"];
               cell_spans := ["(12" ++ nbsp ++ "hosts in use)"] |};
            text_cell (nbsp ++ "public" ++ nbsp);
            text_cell "alice"; text_cell "3 years" ])
     = Some ("public", Finite 12)
  /\ well_formed
       [ {| cell_text := "example.org"; cell_links := ["example.org"];
            cell_spans := [] |};
         text_cell nbsp; text_cell "alice"; text_cell "3 years" ] = false
  /\ uniqueDomains (links_only ["example.com" ++ nbsp]) = ["example.com"].
Proof. repeat split. Qed.
